(** * PDALife scraper: a shallow embedding of [main.py]

    The development follows the layout of the source file: the string
    helpers the code relies on, the URL normalizer [unwrap_google_url], the
    retrying fetcher [fetch_until_success], the CDN page scanner
    [scan_cdn_page_loop], the item pipeline [process_item_fully] and the
    [/search] endpoint [search_apps]. *)

From Stdlib Require Import List ZArith NArith Bool Lia String Ascii.
From Stdlib Require Import Numbers.DecimalString.
Import ListNotations.

Set Implicit Arguments.
Open Scope string_scope.
Open Scope list_scope.
Set Warnings "-register-all".

(** ** Python strings

    A Python [str] is a sequence of Unicode code points; [lit] embeds an
    ASCII literal of the source. *)

Definition str := list N.

Definition lit (s : string) : str :=
  List.map N_of_ascii (list_ascii_of_string s).

Definition str_eqb (a b : str) : bool :=
  if list_eq_dec N.eq_dec a b then true else false.

(** [s.startswith(p)] *)
Fixpoint startswith (s p : str) : bool :=
  match p, s with
  | [], _ => true
  | _ :: _, [] => false
  | a :: p', b :: s' => N.eqb a b && startswith s' p'
  end.

(** [p in s] *)
Fixpoint str_in (p s : str) : bool :=
  startswith s p ||
  match s with
  | [] => false
  | _ :: s' => str_in p s'
  end.

(** [s.replace(old, new)]: occurrences are replaced left to right, without
    overlap.  [skip] counts the characters of the occurrence just replaced
    that are still to be passed over. *)
Fixpoint replace_from (old new : str) (skip : nat) (s : str) : str :=
  match s with
  | [] => []
  | c :: s' =>
      match skip with
      | S k => replace_from old new k s'
      | O =>
          if startswith s old
          then new ++ replace_from old new (List.length old - 1) s'
          else c :: replace_from old new 0 s'
      end
  end.

Definition replace (s old new : str) : str :=
  match old with
  | [] => new ++ flat_map (fun c => c :: new) s
  | _ :: _ => replace_from old new 0 s
  end.

(** [s.split(sep)[0]] for a non-empty separator: the part of [s] before the
    first occurrence of [sep], all of [s] when there is none. *)
Fixpoint split_head (s sep : str) : str :=
  match s with
  | [] => []
  | c :: s' => if startswith s sep then [] else c :: split_head s' sep
  end.

(** [sep.join(parts)] *)
Fixpoint join (sep : str) (parts : list str) : str :=
  match parts with
  | [] => []
  | [p] => p
  | p :: rest => p ++ sep ++ join sep rest
  end.

(** [str(n)] for an integer. *)
Definition str_of_Z (z : Z) : str :=
  lit (NilZero.string_of_int (Z.to_int z)).

(** ** [urllib.parse.unquote]

    [unquote] leaves a string without a percent sign alone.  Otherwise every
    maximal run of ASCII characters is percent-decoded to bytes and the bytes
    are decoded as UTF-8 with [errors='replace']; the characters between the
    runs are kept. *)

Definition hexval (c : N) : option N :=
  if (48 <=? c)%N && (c <=? 57)%N then Some (c - 48)%N
  else if (65 <=? c)%N && (c <=? 70)%N then Some (c - 55)%N
  else if (97 <=? c)%N && (c <=? 102)%N then Some (c - 87)%N
  else None.

Definition percent : N := 37.

Fixpoint unquote_to_bytes (s : str) : list N :=
  match s with
  | [] => []
  | c :: s' =>
      if N.eqb c percent then
        match s' with
        | h :: l :: s'' =>
            match hexval h, hexval l with
            | Some a, Some b => (16 * a + b)%N :: unquote_to_bytes s''
            | _, _ => c :: unquote_to_bytes s'
            end
        | _ => c :: unquote_to_bytes s'
        end
      else c :: unquote_to_bytes s'
  end.

Definition is_cont (b : N) : bool := (128 <=? b)%N && (b <? 192)%N.

Definition replacement_char : N := 65533.

Definition low6 (b : N) : N := N.land b 63.

(** The UTF-8 decoder with [errors='replace']: an ill-formed sequence is
    replaced by U+FFFD up to (not including) the first byte that cannot
    continue it; a truncated sequence at the end is replaced as a whole. *)
Fixpoint utf8_decode (b : list N) : str :=
  match b with
  | [] => []
  | c :: r =>
      if (c <? 128)%N then c :: utf8_decode r
      else if (c <? 194)%N then replacement_char :: utf8_decode r
      else if (c <? 224)%N then
        match r with
        | [] => [replacement_char]
        | c2 :: r2 =>
            if is_cont c2
            then (N.shiftl (N.land c 31) 6 + low6 c2)%N :: utf8_decode r2
            else replacement_char :: utf8_decode r
        end
      else if (c <? 240)%N then
        match r with
        | [] => [replacement_char]
        | c2 :: r2 =>
            if negb (is_cont c2)
               || (if (c2 <? 160)%N then N.eqb c 224 else N.eqb c 237)
            then replacement_char :: utf8_decode r
            else
              match r2 with
              | [] => [replacement_char]
              | c3 :: r3 =>
                  if is_cont c3
                  then (N.shiftl (N.land c 15) 12 + N.shiftl (low6 c2) 6
                        + low6 c3)%N :: utf8_decode r3
                  else replacement_char :: utf8_decode r2
              end
        end
      else if (c <? 245)%N then
        match r with
        | [] => [replacement_char]
        | c2 :: r2 =>
            if negb (is_cont c2)
               || (if (c2 <? 144)%N then N.eqb c 240 else N.eqb c 244)
            then replacement_char :: utf8_decode r
            else
              match r2 with
              | [] => [replacement_char]
              | c3 :: r3 =>
                  if negb (is_cont c3)
                  then replacement_char :: utf8_decode r2
                  else
                    match r3 with
                    | [] => [replacement_char]
                    | c4 :: r4 =>
                        if is_cont c4
                        then (N.shiftl (N.land c 7) 18
                              + N.shiftl (low6 c2) 12
                              + N.shiftl (low6 c3) 6 + low6 c4)%N
                             :: utf8_decode r4
                        else replacement_char :: utf8_decode r3
                    end
              end
        end
      else replacement_char :: utf8_decode r
  end.

Definition decode_run (run : str) : str :=
  utf8_decode (unquote_to_bytes run).

(** [run] holds, reversed, the ASCII run read so far. *)
Fixpoint unquote_parts (run : str) (s : str) : str :=
  match s with
  | [] => decode_run (rev run)
  | c :: s' =>
      if (c <? 128)%N then unquote_parts (c :: run) s'
      else decode_run (rev run) ++ c :: unquote_parts [] s'
  end.

Definition unquote (s : str) : str :=
  if str_in [percent] s then unquote_parts [] s else s.

(** ** Configuration *)

Definition BASE_DOMAIN : str := lit "https://pdalife.com".
Definition CDN_DOMAIN : str := lit "https://mobdisc.com".

(** ** Helper functions *)

Definition not_amp (c : N) : bool := negb (N.eqb c 38).

Fixpoint take_while (f : N -> bool) (s : str) : str :=
  match s with
  | [] => []
  | c :: s' => if f c then c :: take_while f s' else []
  end.

(** What [[^&]+] takes behind a scheme of [n] characters at the head of
    [s], with the scheme in front; no match when it takes nothing. *)
Definition match_after (n : nat) (s : str) : option str :=
  match take_while not_amp (skipn n s) with
  | [] => None
  | body => Some (firstn n s ++ body)
  end.

(** A match of [https?://[^&]+] that starts at the head of [s]. *)
Definition url_match_at (s : str) : option str :=
  if startswith s (lit "https://") then match_after 8 s
  else if startswith s (lit "http://") then match_after 7 s
  else None.

(** [re.search(r'(https?://[^&]+)', s)], group 1 of the leftmost match. *)
Fixpoint re_search_url (s : str) : option str :=
  match url_match_at s with
  | Some m => Some m
  | None =>
      match s with
      | [] => None
      | _ :: s' => re_search_url s'
      end
  end.

(** Steps 1 and 2 of [unwrap_google_url]: the value of [clean] when step 3
    is reached. *)
Definition clean_url (url : str) : str :=
  let clean := unquote url in
  let clean := replace clean (lit "-com.translate.goog") (lit ".com") in
  let clean := replace clean (lit ".translate.goog") [] in
  let clean := split_head clean (lit "?_x_tr_") in
  let clean := split_head clean (lit "&_x_tr_") in
  clean.

Definition unwrap_google_url (url : str) : str :=
  match url with
  | [] => []
  | _ :: _ =>
      let clean := clean_url url in
      if startswith clean (lit "/") then
        if startswith clean (lit "/fdl/")
        then CDN_DOMAIN ++ clean
        else BASE_DOMAIN ++ clean
      else if str_in (lit "https://") clean && str_in (lit "http") (skipn 8 clean)
      then
        match re_search_url clean with
        | Some m => m
        | None => clean
        end
      else clean
  end.

(** ** Exceptions, parsed documents and the network

    A Python call either returns or raises. *)

Inductive exn : Type := KeyError | ValueError | TransportError | ParserError.

Inductive res (A : Type) : Type :=
| Ok (a : A)
| Raise (e : exn).

Arguments Raise {A} e.

Definition res_bind {A B} (r : res A) (k : A -> res B) : res B :=
  match r with
  | Ok a => k a
  | Raise e => Raise e
  end.

Definition res_map {A B} (f : A -> B) (r : res A) : res B :=
  res_bind r (fun a => Ok (f a)).

(** A [bs4] element (the parsed document is one too), seen through the
    queries the source makes: attribute lookup, [get_text()],
    [get_text(strip=True)] and CSS selection.  A query of the parser library
    may raise (as it does on markup nested too deep), so the text and
    selection queries return a [res]. *)
Inductive Tag : Type := mkTag {
  tag_attrs : list (string * str);
  get_text : res str;
  get_text_strip : res str;
  select : string -> res (list Tag) }.

(** A list is truthy when it is not empty. *)
Definition truthy {A} (l : list A) : bool :=
  match l with
  | [] => false
  | _ :: _ => true
  end.

Definition select_one (t : Tag) (selector : string) : res (option Tag) :=
  res_map (@hd_error Tag) (select t selector).

(** [d.get(key)] on a dictionary with string keys: [None] when the key is
    missing. *)
Fixpoint assoc_get {A} (d : list (string * A)) (key : string) : option A :=
  match d with
  | [] => None
  | (k, v) :: rest => if String.eqb k key then Some v else assoc_get rest key
  end.

(** [tag.get(key)] *)
Definition attr_get (t : Tag) (key : string) : option str :=
  assoc_get (tag_attrs t) key.

(** [tag[key]]: raises [KeyError] when the attribute is missing. *)
Definition attr_index (t : Tag) (key : string) : res str :=
  match attr_get t key with
  | Some v => Ok v
  | None => Raise KeyError
  end.

(** What [client.get] yields: the final response after redirects, with its
    status, the final URL as a string and the result of parsing its body
    with [BeautifulSoup(res.content, 'html.parser')]. *)
Record Response : Type := mkResponse {
  status_code : Z;
  res_url : str;
  parsed : res Tag }.

Inductive Event : Type :=
| Fails (e : exn)
| Answers (r : Response).

(** The network: for every URL the events that successive [client.get]
    calls on it meet, and the log of the requests made so far. *)
Record World : Type := mkWorld {
  pending : str -> list Event;
  requests : list str }.

Definition set_pending (f : str -> list Event) (u : str) (evs : list Event)
  : str -> list Event :=
  fun u' => if str_eqb u' u then evs else f u'.

(** An awaited call returns, raises, or is still retrying when the known
    events run out ([Spinning]: the source has no attempt cap). *)
Inductive outcome (A : Type) : Type :=
| Done (a : A)
| Raised (e : exn)
| Spinning.

Arguments Raised {A} e.
Arguments Spinning {A}.

Definition M (A : Type) : Type := World -> outcome A * World.

Definition ret {A} (a : A) : M A := fun w => (Done a, w).

Definition bind {A B} (m : M A) (k : A -> M B) : M B :=
  fun w =>
    match m w with
    | (Done a, w') => k a w'
    | (Raised e, w') => (Raised e, w')
    | (Spinning, w') => (Spinning, w')
    end.

Definition lift {A} (r : res A) : M A :=
  fun w =>
    match r with
    | Ok a => (Done a, w)
    | Raise e => (Raised e, w)
    end.

(** [try: body  except Exception as e: handler] *)
Definition try_except {A} (body : M A) (handler : exn -> M A) : M A :=
  fun w =>
    match body w with
    | (Raised e, w') => handler e w'
    | r => r
    end.

Declare Scope py_scope.
Delimit Scope py_scope with py.
Notation "x <- c ;; k" := (bind c (fun x => k))
  (at level 100, c at next level, right associativity) : py_scope.
Open Scope py_scope.

(** ** [fetch_until_success] *)

(** The MobDisc test of the loop: ["mobdisc" in str(res.url) or
    soup.select('a.b-download__button')]. *)
Definition mobdisc_detected (r : Response) (soup : Tag) : res bool :=
  if str_in (lit "mobdisc") (res_url r) then Ok true
  else res_map (@truthy Tag) (select soup "a.b-download__button").

(** What one pass through the body of [while True] decides. *)
Inductive verdict : Type :=
| Retry
| Return (soup : option Tag).

Definition attempt (validator_func : Tag -> res bool) (ev : Event) : verdict :=
  match ev with
  | Fails _ => Retry
  | Answers r =>
      if (status_code r =? 429)%Z || (status_code r >=? 500)%Z then Retry
      else if (status_code r =? 403)%Z || (status_code r =? 451)%Z
      then Return None
      else if (status_code r =? 404)%Z then Return None
      else
        match parsed r with
        | Raise _ => Retry
        | Ok soup =>
            match validator_func soup with
            | Raise _ => Retry
            | Ok true => Return (Some soup)
            | Ok false =>
                match mobdisc_detected r soup with
                | Raise _ => Retry
                | Ok true => Return (Some soup)
                | Ok false =>
                    if (status_code r =? 200)%Z then Return None else Retry
                end
            end
        end
  end.

(** The loop over the events the target meets.  The result comes with the
    final value of [attempt_count] and the events left unread. *)
Fixpoint fetch_loop (validator_func : Tag -> res bool) (attempt_count : nat)
  (evs : list Event) : outcome (option Tag) * nat * list Event :=
  match evs with
  | [] => (Spinning, attempt_count, [])
  | ev :: rest =>
      let attempt_count := S attempt_count in
      match attempt validator_func ev with
      | Retry => fetch_loop validator_func attempt_count rest
      | Return soup => (Done soup, attempt_count, rest)
      end
  end.

Definition target_of (url : str) : str :=
  if startswith url (lit "/") then BASE_DOMAIN ++ url else url.

Definition fetch_until_success (url : str) (validator_func : Tag -> res bool)
  : M (option Tag) :=
  fun w =>
    let target_url := target_of url in
    let '(r, n, rest) := fetch_loop validator_func 0 (pending w target_url) in
    (r, {| pending := set_pending (pending w) target_url rest;
           requests := requests w ++ repeat target_url n |}).

(** ** [scan_cdn_page_loop] *)

Definition is_valid_mobdisc_page (soup : Tag) : res bool :=
  res_map (@truthy Tag) (select soup "a.b-download__button").

(** The [for btn in buttons] loop. *)
Fixpoint scan_buttons (buttons : list Tag) : option str :=
  match buttons with
  | [] => None
  | btn :: rest =>
      match attr_get btn "href" with
      | None => scan_buttons rest
      | Some href =>
          if negb (truthy href) then scan_buttons rest
          else if str_in (lit "t.me") href then scan_buttons rest
          else if str_in (lit "/fdl/") href then Some (unwrap_google_url href)
          else if startswith href (lit "#/download/")
          then Some (CDN_DOMAIN ++ skipn 1 href)
          else if str_in (lit "http") href && str_in (lit "mobdisc.com") href
          then Some href
          else scan_buttons rest
      end
  end.

Definition scan_cdn_page_loop (dwn_url : str) : M (option str) :=
  soup <- fetch_until_success dwn_url is_valid_mobdisc_page ;;
  match soup with
  | None => ret None
  | Some soup =>
      buttons <- lift (select soup "a.b-download__button") ;;
      ret (scan_buttons buttons)
  end.

(** ** [process_item_fully] *)

(** The dictionary a successful item pipeline returns. *)
Record Item : Type := mkItem {
  name : str;
  link : str;
  image : str;
  download : str;
  size : str }.

Definition detail_page_valid (s : Tag) : res bool :=
  res_bind (select s "a.game-versions__downloads-button") (fun buttons =>
  if truthy buttons then Ok true
  else res_map (@truthy Tag) (select s ".accordion-item")).

(** The loop over [download_list_items] that fills [link_tags]. *)
Fixpoint list_buttons (download_list_items : list Tag) : res (list Tag) :=
  match download_list_items with
  | [] => Ok []
  | item :: rest =>
      res_bind (select_one item "a.game-versions__downloads-button") (fun btn =>
      res_bind (list_buttons rest) (fun link_tags =>
      Ok (match btn with
          | Some b => b :: link_tags
          | None => link_tags
          end)))
  end.

Definition collect_link_tags (app_soup : Tag) : res (list Tag) :=
  res_bind (select app_soup ".game-versions__downloads-list li")
    (fun download_list_items =>
  if truthy download_list_items then list_buttons download_list_items
  else select app_soup "a.game-versions__downloads-button").

(** [main_size] as the first link tag sets it. *)
Definition size_of (link_tag : Tag) : res str :=
  res_bind (select_one link_tag ".game-versions__downloads-size") (fun size_tag =>
  match size_tag with
  | Some t => get_text_strip t
  | None => Ok []
  end).

(** The three kinds of link the loop tells apart. *)
Definition is_magnet (raw_link : str) : bool :=
  startswith raw_link (lit "magnet:").

Definition is_external (raw_link : str) : bool :=
  str_in (lit "http") raw_link
  && negb (str_in (lit "pdalife.com") raw_link)
  && negb (str_in (lit "/dwn/") raw_link).

(** [if direct_link:] on a value that is [None] or a string. *)
Definition nonempty (o : option str) : option str :=
  match o with
  | Some (c :: s) => Some (c :: s)
  | _ => None
  end.

(** What one link tag contributes to [final_data_list]: the value appended,
    if any. *)
Definition resolve_link (raw_link : option str) : M (option str) :=
  match nonempty raw_link with
  | None => ret None
  | Some raw_link =>
      if is_magnet raw_link then ret (Some raw_link)
      else if is_external raw_link then
        direct_link <- scan_cdn_page_loop raw_link ;;
        ret (match nonempty direct_link with
             | Some l => Some l
             | None => Some raw_link
             end)
      else
        let dwn_link := unwrap_google_url raw_link in
        direct_link <- scan_cdn_page_loop dwn_link ;;
        ret (nonempty direct_link)
  end.

(** The [for index, link_tag in enumerate(link_tags)] loop, from [index] on;
    it returns the final [final_data_list] and [main_size]. *)
Fixpoint resolve_links (index : nat) (link_tags : list Tag)
  (final_data_list : list str) (main_size : str) : M (list str * str) :=
  match link_tags with
  | [] => ret (final_data_list, main_size)
  | link_tag :: rest =>
      let raw_link := attr_get link_tag "href" in
      main_size <- (if Nat.eqb index 0 then lift (size_of link_tag)
                    else ret main_size) ;;
      processed_link <- resolve_link raw_link ;;
      resolve_links (S index) rest
        (match processed_link with
         | Some l => final_data_list ++ [l]
         | None => final_data_list
         end) main_size
  end.

Definition comma : str := lit ", ".

(** The body of the [try] block. *)
Definition process_item_body (name detail_url image : str) : M (option Item) :=
  app_soup <- fetch_until_success detail_url detail_page_valid ;;
  match app_soup with
  | None => ret None
  | Some app_soup =>
      link_tags <- lift (collect_link_tags app_soup) ;;
      if negb (truthy link_tags) then ret None
      else
        r <- resolve_links 0 link_tags [] [] ;;
        let '(final_data_list, main_size) := r in
        if negb (truthy final_data_list) then ret None
        else
          ret (Some {| name := name;
                       link := unwrap_google_url detail_url;
                       image := image;
                       download := join comma final_data_list;
                       size := main_size |})
  end.

Definition process_item_fully (name detail_url image : str) : M (option Item) :=
  try_except (process_item_body name detail_url image) (fun _ => ret None).

(** ** The endpoint [search_apps] *)

(** The values of the response dictionary. *)
Inductive value : Type :=
| VBool (b : bool)
| VInt (z : Z)
| VStr (s : str)
| VItems (l : list Item).

Definition payload : Type := list (string * value).

(** [l[:n]] *)
Definition slice_to {A} (l : list A) (n : Z) : list A :=
  if (n <? 0)%Z then firstn (List.length l - Z.to_nat (- n)) l
  else firstn (Z.to_nat n) l.

Definition len {A} (l : list A) : Z := Z.of_nat (List.length l).

Definition found_0 : str := lit "Found 0 responses".

Definition search_page_valid (s : Tag) : res bool :=
  res_bind (select s ".catalog-item") (fun items =>
  if truthy items then Ok true
  else res_map (str_in found_0) (get_text s)).

Definition search_url_of (query : str) (current_page : Z) : str :=
  if (current_page =? 1)%Z
  then BASE_DOMAIN ++ lit "/search/" ++ query
  else BASE_DOMAIN ++ lit "/search/" ++ query ++ lit "/page-"
       ++ str_of_Z current_page ++ lit "/".

(** The arguments of one [process_item_fully] call waiting in [tasks]. *)
Definition task : Type := (str * str * str)%type.

(** What the body of the loop over [items_to_process] makes of one catalog
    entry: the arguments of the coroutine it appends to [tasks], if any. *)
Definition task_of (item : Tag) : res (option task) :=
  res_bind (select_one item ".catalog-item__title a") (fun title_el =>
  match title_el with
  | None => Ok None
  | Some title_el =>
      res_bind (get_text_strip title_el) (fun name =>
      res_bind (attr_index title_el "href") (fun detail_href =>
      let detail_link := unwrap_google_url detail_href in
      res_bind (select_one item ".catalog-item__poster img") (fun img_el =>
      res_bind (match img_el with
                | Some i => res_map unwrap_google_url (attr_index i "src")
                | None => Ok []
                end) (fun image =>
      Ok (Some (name, detail_link, image))))))
  end).

Definition push {A} (o : option A) (l : list A) : list A :=
  match o with
  | Some a => a :: l
  | None => l
  end.

(** The loop over [items_to_process] that fills [tasks]; no coroutine runs
    before the loop is over. *)
Fixpoint make_tasks (items_to_process : list Tag) : res (list task) :=
  match items_to_process with
  | [] => Ok []
  | item :: rest =>
      res_bind (task_of item) (fun t =>
      res_map (push t) (make_tasks rest))
  end.

Definition run_task (t : task) : M (option Item) :=
  let '(name, detail_link, image) := t in
  process_item_fully name detail_link image.

(** [asyncio.gather] over [tasks]: the results come back in the order of
    the tasks.  [asyncio] interleaves the coroutines at their awaits; here
    they are run one after the other, each on the network the previous ones
    left, which is one of the schedules.  A coroutine only reads the events
    of the addresses it asks for, so the schedule can only matter to tasks
    that ask for the same address. *)
Fixpoint gather (tasks : list task) : M (list (option Item)) :=
  match tasks with
  | [] => ret []
  | t :: rest =>
      r <- run_task t ;;
      rs <- gather rest ;;
      ret (r :: rs)
  end.

(** [[r for r in results if r is not None]] *)
Fixpoint valid_only (results : list (option Item)) : list Item :=
  match results with
  | [] => []
  | Some r :: rest => r :: valid_only rest
  | None :: rest => valid_only rest
  end.

Section Search.

(** [int(s)]; it raises [ValueError] on a string that is no integer
    literal. *)
Variable int_of : str -> res Z.

(** [max_page] after the "Load More" check on [soup]. *)
Definition next_max_page (soup : Tag) (max_page : Z) : res Z :=
  res_map (fun load_more_btn =>
    match load_more_btn with
    | None => max_page
    | Some b =>
        match attr_get b "data-max_page" with
        | None => max_page
        | Some v =>
            match int_of v with
            | Ok n => n
            | Raise _ => max_page
            end
        end
    end) (select_one soup ".js-load_more").

(** The pagination loop.  Every pass that goes on to a next one has made
    [collected_item_elements] longer, so [fuel] passes are enough when
    [fuel] is at least the number of entries still wanted. *)
Fixpoint pagination (fuel : nat) (query : str) (limit : Z)
  (collected_item_elements : list Tag) (current_page max_page : Z)
  : M (list Tag) :=
  if negb (len collected_item_elements <? limit)%Z
  then ret collected_item_elements
  else
    match fuel with
    | O => fun w => (Spinning, w)
    | S fuel' =>
        soup <- fetch_until_success (search_url_of query current_page)
                  search_page_valid ;;
        match soup with
        | None => ret collected_item_elements
        | Some soup =>
            text <- lift (get_text soup) ;;
            if str_in found_0 text then ret collected_item_elements
            else
              page_items <- lift (select soup ".catalog-item") ;;
              if negb (truthy page_items) then ret collected_item_elements
              else
                let collected_item_elements :=
                  collected_item_elements ++ page_items in
                max_page <- lift (next_max_page soup max_page) ;;
                if (current_page >=? max_page)%Z
                then ret collected_item_elements
                else pagination fuel' query limit collected_item_elements
                       (current_page + 1)%Z max_page
        end
    end.

Definition search_apps (query : str) (limit : Z) : M payload :=
  collected_item_elements <- pagination (Z.to_nat limit) query limit [] 1 1 ;;
  if negb (truthy collected_item_elements)
  then ret [("success", VBool true); ("count", VInt 0); ("results", VItems [])]
  else
    let items_to_process := slice_to collected_item_elements limit in
    tasks <- lift (make_tasks items_to_process) ;;
    results <- gather tasks ;;
    let valid_results := valid_only results in
    ret [("success", VBool true);
         ("query", VStr query);
         ("limit", VInt limit);
         ("count", VInt (len valid_results));
         ("results", VItems valid_results)].

End Search.

(** * Specification-side notions and sample data *)

(** ** The mirror marker as the specification words it

    The host component of a URL: what stands between the ["://"] of the
    scheme and the next ["/"], ["?"] or ["#"]. *)
Fixpoint after_scheme (s : str) : str :=
  match s with
  | [] => []
  | _ :: s' => if startswith s (lit "://") then skipn 3 s else after_scheme s'
  end.

Definition in_host (c : N) : bool :=
  negb (N.eqb c 47 || N.eqb c 63 || N.eqb c 35).

Definition host_of (url : str) : str :=
  take_while in_host (after_scheme url).

(** "Resolved host contains the CDN domain, or a download-button selector
    matches", [buttons] being what the selector finds in the document. *)
Definition spec_mirror_marker (r : Response) (buttons : list Tag) : bool :=
  str_in (lit "mobdisc.com") (host_of (res_url r)) || truthy buttons.

(** The statuses with which a response reaches the parser and the
    validator: neither retried at once nor given up at once. *)
Definition parsed_status (status : Z) : bool :=
  negb ((status =? 429)%Z || (status >=? 500)%Z
        || (status =? 403)%Z || (status =? 451)%Z || (status =? 404)%Z).

(** An event after which the loop of the fetcher goes round again. *)
Definition is_retry (validator_func : Tag -> res bool) (ev : Event) : bool :=
  match attempt validator_func ev with
  | Retry => true
  | Return _ => false
  end.

(** ** The external link as the specification words it

    "Absolute": the link opens with an http scheme.  "External to the
    catalog's own domain": its host is neither the catalog's nor below it.
    "Not an internal redirect path": its path does not open with "/dwn/". *)
Definition spec_absolute (url : str) : bool :=
  startswith url (lit "http://") || startswith url (lit "https://").

Definition endswith (s p : str) : bool := startswith (rev s) (rev p).

Definition on_catalog_domain (url : str) : bool :=
  str_eqb (host_of url) (lit "pdalife.com")
  || endswith (host_of url) (lit ".pdalife.com").

Definition path_of (url : str) : str :=
  skipn (List.length (host_of url)) (after_scheme url).

Definition spec_external (url : str) : bool :=
  spec_absolute url
  && negb (on_catalog_domain url)
  && negb (startswith (path_of url) (lit "/dwn/")).

(** ** Documents a network serves

    [served w url soup]: on the network [w], one of the responses waiting
    at [url] has the document [soup] as its parsed body. *)
Definition served (w : World) (url : str) (soup : Tag) : Prop :=
  exists r, In (Answers r) (pending w url) /\ parsed r = Ok soup.

(** ** Buttons the scan of a CDN page passes over

    A button without a usable [href], one that points to Telegram, and one
    that none of the three rules of the loop accepts. *)
Definition passed_over (btn : Tag) : bool :=
  match attr_get btn "href" with
  | None => true
  | Some href =>
      negb (truthy href)
      || str_in (lit "t.me") href
      || negb (str_in (lit "/fdl/") href
               || startswith href (lit "#/download/")
               || (str_in (lit "http") href && str_in (lit "mobdisc.com") href))
  end.

(** ** The variants of an item, resolved in turn

    [resolved w link_tags rs w'] holds when, starting on the network [w], the
    link of each tag in turn resolves to the matching entry of [rs] ([None]
    for a variant that is dropped), and the network is [w'] in the end. *)
Inductive resolved : World -> list Tag -> list (option str) -> World -> Prop :=
| resolved_nil w : resolved w [] [] w
| resolved_cons w w1 w2 link_tag link_tags r rs :
    resolve_link (attr_get link_tag "href") w = (Done r, w1) ->
    resolved w1 link_tags rs w2 ->
    resolved w (link_tag :: link_tags) (r :: rs) w2.

(** The entries that are links, in their order. *)
Definition kept (rs : list (option str)) : list str :=
  fold_right (@push str) [] rs.

(** ** A batch of items

    [batch w tasks os w'] holds when, starting on the network [w], the body
    of the pipeline of each task in turn ends with the matching outcome of
    [os], a result or an exception, and the network is [w'] in the end. *)
Inductive batch
  : World -> list task -> list (outcome (option Item)) -> World -> Prop :=
| batch_nil w : batch w [] [] w
| batch_cons w w1 w2 name detail_link image tasks o os :
    process_item_body name detail_link image w = (o, w1) ->
    o <> Spinning ->
    batch w1 tasks os w2 ->
    batch w ((name, detail_link, image) :: tasks) (o :: os) w2.

(** What the caller of the pipeline sees of an outcome of its body. *)
Definition result_of (o : outcome (option Item)) : option Item :=
  match o with
  | Done r => r
  | _ => None
  end.

Definition is_resolved (o : outcome (option Item)) : Prop :=
  exists r, o = Done (Some r).

(** [gathered w tasks results w']: the tasks, run in turn from [w], return
    the matching entries of [results]. *)
Inductive gathered
  : World -> list task -> list (option Item) -> World -> Prop :=
| gathered_nil w : gathered w [] [] w
| gathered_cons w w1 w2 t tasks r results :
    run_task t w = (Done r, w1) ->
    gathered w1 tasks results w2 ->
    gathered w (t :: tasks) (r :: results) w2.

(** ** A page without a usable "Load More" button

    The page has no [.js-load_more] element, or the element has no
    [data-max_page] attribute, or [int] raises on the attribute. *)
Definition no_max_page (int_of : str -> res Z) (soup : Tag) : Prop :=
  exists load_more_btn,
    select_one soup ".js-load_more" = Ok load_more_btn
    /\ match load_more_btn with
       | None => True
       | Some b =>
           match attr_get b "data-max_page" with
           | None => True
           | Some v => exists e, int_of v = Raise e
           end
       end.

(** ** Plain addresses

    An address with nothing for the cleaning steps of the normalizer to
    work on: no percent sign, no translate host, no translate parameter. *)
Definition plain (url : str) : bool :=
  negb (str_in [percent] url)
  && negb (str_in (lit "-com.translate.goog") url)
  && negb (str_in (lit ".translate.goog") url)
  && negb (str_in (lit "?_x_tr_") url)
  && negb (str_in (lit "&_x_tr_") url).

(** ** The requests of the pagination loop

    The dictionary the endpoint returns when no entry was collected. *)
Definition empty_payload : payload :=
  [("success", VBool true); ("count", VInt 0); ("results", VItems [])].

(** The requests for the search pages from [page] on, [counts] giving the
    number of requests each page took. *)
Fixpoint page_requests (query : str) (page : Z) (counts : list nat)
  : list str :=
  match counts with
  | [] => []
  | n :: rest =>
      repeat (search_url_of query page) n
      ++ page_requests query (page + 1) rest
  end.

(** ** Sample documents and networks *)

Module Sample.

Fixpoint lookup {A} (key : string) (table : list (string * list A))
  : list A :=
  match table with
  | [] => []
  | (k, v) :: rest => if String.eqb k key then v else lookup key rest
  end.

(** An element with the given attributes and children per selector. *)
Definition element (attrs : list (string * string))
  (text : string) (children : list (string * list Tag)) : Tag :=
  mkTag (List.map (fun kv => (fst kv, lit (snd kv))) attrs)
        (Ok (lit text)) (Ok (lit text))
        (fun selector => Ok (lookup selector children)).

Definition anchor (href : string) : Tag :=
  element [("href", href)] "" [].

(** A document on which the given selector raises. *)
Definition broken (text : string) (children : list (string * list Tag))
  (bad : string) : Tag :=
  mkTag [] (Ok (lit text)) (Ok (lit text))
        (fun selector =>
           if String.eqb selector bad then Raise ParserError
           else Ok (lookup selector children)).

Definition answer (status : Z) (url : string) (doc : Tag) : Event :=
  Answers (mkResponse status (lit url) (Ok doc)).

Fixpoint events_of (net : list (string * list Event)) (u : str)
  : list Event :=
  match net with
  | [] => []
  | (k, evs) :: rest => if str_eqb u (lit k) then evs else events_of rest u
  end.

(** The network that meets the listed URLs with the listed events. *)
Definition world (net : list (string * list Event)) : World :=
  mkWorld (events_of net) [].

Definition empty_page : Tag := element [] "" [].

(** A page of the catalog that shows neither entries nor the "Found 0"
    message, reached at a search URL for the query "mobdisc". *)
Definition captcha_page : Tag := element [] "Checking your browser" [].

Definition captcha_response : Response :=
  mkResponse 200 (lit "https://pdalife.com/search/mobdisc") (Ok captcha_page).

(** A CDN page with one file button. *)
Definition cdn_page (href : string) : Tag :=
  element [] "" [("a.b-download__button", [anchor href])].

(** A detail page whose version list holds the given download buttons. *)
Definition detail_page (buttons : list Tag) : Tag :=
  element [] ""
    [(".game-versions__downloads-list li",
      List.map (fun b =>
        element [] "" [("a.game-versions__downloads-button", [b])]) buttons);
     ("a.game-versions__downloads-button", buttons)].

(** A download button with its size label. *)
Definition sized_button (href size : string) : Tag :=
  element [("href", href)] ""
    [(".game-versions__downloads-size", [element [] size []])].

(** A network on which the redirect of an item leads to a CDN page with
    a file button, an external mirror is gone, and so is another
    redirect. *)
Definition item_world : World :=
  world
    [("https://pdalife.com/dwn/redirect",
      [answer 200 "https://mobdisc.com/dw/redirect" (cdn_page "/fdl/final")]);
     ("https://onlinerp.me/get", [answer 404 "https://onlinerp.me/get" empty_page]);
     ("https://pdalife.com/dwn/gone",
      [answer 404 "https://pdalife.com/dwn/gone" empty_page]);
     ("https://pdalife.com/game/lost",
      [answer 200 "https://pdalife.com/game/lost"
         (detail_page [anchor "/dwn/gone"])]);
     ("https://pdalife.com/game/two",
      [answer 200 "https://pdalife.com/game/two"
         (detail_page [sized_button "magnet:?xt=1" "1.2 GB";
                       anchor "/dwn/redirect"])])].

(** A document on which selecting the version list raises, behind a
    download button that satisfies the validator. *)
Definition broken_detail_page : Tag :=
  broken "" [("a.game-versions__downloads-button", [anchor "/dwn/redirect"])]
    ".game-versions__downloads-list li".

Definition batch_world : World :=
  world
    [("https://pdalife.com/game/broken",
      [answer 200 "https://pdalife.com/game/broken" broken_detail_page]);
     ("https://pdalife.com/game/magnet",
      [answer 200 "https://pdalife.com/game/magnet"
         (detail_page [sized_button "magnet:?xt=1" "1.2 GB"])])].

(** A stand-in for [int] in the examples: it reads a run of ASCII digits
    and raises on anything else. *)
Fixpoint digits_value (acc : Z) (s : str) : option Z :=
  match s with
  | [] => Some acc
  | c :: s' =>
      if (48 <=? c)%N && (c <=? 57)%N
      then digits_value (10 * acc + Z.of_N (c - 48)) s'
      else None
  end.

Definition int_digits (s : str) : res Z :=
  match s with
  | [] => Raise ValueError
  | _ :: _ =>
      match digits_value 0 s with
      | Some z => Ok z
      | None => Raise ValueError
      end
  end.

(** A catalog entry with its title link. *)
Definition entry (href title : string) : Tag :=
  element [] ""
    [(".catalog-item__title a", [element [("href", href)] title []])].

(** A page of search results, with a "Load More" button when
    [max_page] is given. *)
Definition results_page (entries : list Tag) (max_page : option string)
  : Tag :=
  element [] "Search results"
    [(".catalog-item", entries);
     (".js-load_more",
      match max_page with
      | Some m => [element [("data-max_page", m)] "" []]
      | None => []
      end)].

Definition magnet_detail : list Event :=
  [answer 200 "https://pdalife.com/game" 
     (detail_page [sized_button "magnet:?xt=1" "1.2 GB"])].

Definition gone : list Event :=
  [answer 404 "https://pdalife.com/game" empty_page].

(** Four pages of two entries are announced for the query "quake"; the
    network knows the first three pages and the first five games. *)
Definition search_world : World :=
  world
    [("https://pdalife.com/search/quake",
      [answer 200 "https://pdalife.com/search/quake"
         (results_page [entry "/game/a" "A"; entry "/game/b" "B"] (Some "4"))]);
     ("https://pdalife.com/search/quake/page-2/",
      [answer 200 "https://pdalife.com/search/quake/page-2/"
         (results_page [entry "/game/c" "C"; entry "/game/d" "D"] (Some "4"))]);
     ("https://pdalife.com/search/quake/page-3/",
      [answer 200 "https://pdalife.com/search/quake/page-3/"
         (results_page [entry "/game/e" "E"; entry "/game/f" "F"] (Some "4"))]);
     ("https://pdalife.com/game/a", gone);
     ("https://pdalife.com/game/b", magnet_detail);
     ("https://pdalife.com/game/c", magnet_detail);
     ("https://pdalife.com/game/d", gone);
     ("https://pdalife.com/game/e", magnet_detail);
     ("https://pdalife.com/search/doom",
      [answer 200 "https://pdalife.com/search/doom"
         (results_page [entry "/game/b" "B"; entry "/game/a" "A"] None)]);
     ("https://pdalife.com/search/zzz",
      [answer 200 "https://pdalife.com/search/zzz"
         (element [] "Found 0 responses" [])])].

Definition found (title link : string) : Item :=
  {| name := lit title; link := lit link; image := [];
     download := lit "magnet:?xt=1"; size := lit "1.2 GB" |}.

(** A redirect that answers at the third request, and one that never
    does. *)
Definition flaky_world : World :=
  world
    [("https://pdalife.com/dwn/flaky",
      [Fails TransportError;
       answer 503 "https://pdalife.com/dwn/flaky" empty_page;
       answer 200 "https://mobdisc.com/dw/flaky" (cdn_page "/fdl/ok");
       answer 200 "https://mobdisc.com/dw/flaky" empty_page]);
     ("https://pdalife.com/dwn/down",
      [Fails TransportError;
       answer 502 "https://pdalife.com/dwn/down" empty_page;
       answer 400 "https://pdalife.com/dwn/down" empty_page])].

(** A detail page whose version list has an entry without button, beside
    a standalone download button. *)
Definition listed_without_button : Tag :=
  element [] ""
    [(".game-versions__downloads-list li", [empty_page]);
     ("a.game-versions__downloads-button", [anchor "magnet:?xt=9"])].

Definition odd_world : World :=
  world
    [("https://pdalife.com/game/odd",
      [answer 200 "https://pdalife.com/game/odd" listed_without_button])].

(** A page of results whose second entry has a title link without
    [href]. *)
Definition unlinked_world : World :=
  world
    [("https://pdalife.com/search/bad",
      [answer 200 "https://pdalife.com/search/bad"
         (results_page
            [entry "/game/b" "B";
             element [] ""
               [(".catalog-item__title a", [element [] "No link" []])]]
            None)]);
     ("https://pdalife.com/game/b", magnet_detail)].

(** Two mirrors that are gone: one on a host whose name ends like the
    catalog's, one behind a relative path with "http" in a file name. *)
Definition mirror_world : World :=
  world
    [("https://notpdalife.com/get/1",
      [answer 404 "https://notpdalife.com/get/1" empty_page]);
     ("https://pdalife.com/files/http-tool.apk",
      [answer 404 "https://pdalife.com/files/http-tool.apk" empty_page])].

End Sample.

(** Running a call on a sample network: the outcome is computed, the
    network left behind is named after the call. *)
Ltac run_sample :=
  apply injective_projections; [vm_compute; reflexivity | reflexivity].

(** * Properties *)

Unset Implicit Arguments.

(** ** The fetcher *)

Section Fetcher.

Variable validator_func : Tag -> res bool.


Lemma attempt_terminal_status r :
  (status_code r = 404 \/ status_code r = 403 \/ status_code r = 451)%Z ->
  attempt validator_func (Answers r) = Return None.
Proof.
  intros H. unfold attempt.
  destruct H as [H | [H | H]]; rewrite H; reflexivity.
Qed.



Lemma fetch_loop_cons n ev rest :
  fetch_loop validator_func n (ev :: rest) =
  match attempt validator_func ev with
  | Retry => fetch_loop validator_func (S n) rest
  | Return soup => (Done soup, S n, rest)
  end.
Proof. reflexivity. Qed.

(** What [fetch_until_success] leaves behind is read off [fetch_loop]. *)
Lemma fetch_until_success_unfold url w :
  fetch_until_success url validator_func w =
  (fst (fst (fetch_loop validator_func 0 (pending w (target_of url)))),
   {| pending := set_pending (pending w) (target_of url)
                   (snd (fetch_loop validator_func 0
                           (pending w (target_of url))));
      requests := requests w ++
                  repeat (target_of url)
                    (snd (fst (fetch_loop validator_func 0
                                 (pending w (target_of url))))) |}).
Proof.
  unfold fetch_until_success.
  destruct (fetch_loop validator_func 0 (pending w (target_of url)))
    as [[r n] rest].
  reflexivity.
Qed.

End Fetcher.



(** C8, as the specification words it, fails: a search page for the query
    "mobdisc" that shows no catalog entry is rejected by the validator, has
    no download button and is served by the catalog host, yet the fetcher
    returns it, because its URL contains "mobdisc". *)
Lemma mirror_marker_is_not_the_host :
  search_page_valid Sample.captcha_page = Ok false
  /\ select Sample.captcha_page "a.b-download__button" = Ok []
  /\ host_of (res_url Sample.captcha_response) = lit "pdalife.com"
  /\ spec_mirror_marker Sample.captcha_response [] = false
  /\ attempt search_page_valid (Answers Sample.captcha_response)
     = Return (Some Sample.captcha_page).
Proof. vm_compute. repeat split. Qed.

(** C8 (amended): when the validator rejects a fetched document, the
    document is returned all the same exactly when the final URL of the
    response, taken as a string, contains "mobdisc" anywhere, or the
    selector [a.b-download__button] matches the document. *)
Theorem rejected_document_returned_on_mobdisc
  (validator_func : Tag -> res bool) (r : Response) (soup : Tag)
  (buttons : list Tag) :
  parsed_status (status_code r) = true ->
  parsed r = Ok soup ->
  validator_func soup = Ok false ->
  select soup "a.b-download__button" = Ok buttons ->
  attempt validator_func (Answers r) = Return (Some soup)
  <-> (str_in (lit "mobdisc") (res_url r) = true \/ buttons <> []).
Proof.
  intros Hs Hp Hv Hb. unfold parsed_status in Hs.
  apply negb_true_iff in Hs.
  repeat (apply orb_false_iff in Hs; destruct Hs as [Hs ?]).
  unfold attempt, mobdisc_detected.
  rewrite Hs; cbn [orb].
  repeat match goal with H : _ = false |- _ => rewrite H; clear H end.
  cbn [orb]. rewrite Hp, Hv.
  destruct (str_in (lit "mobdisc") (res_url r)) eqn:Hu.
  - split; [left; reflexivity | reflexivity].
  - rewrite Hb. unfold res_map, res_bind.
    destruct buttons as [|b bs]; cbn [truthy].
    + split.
      * intros H; destruct (status_code r =? 200)%Z; discriminate H.
      * intros [H | H]; [discriminate H | contradiction H; reflexivity].
    + split; [right; discriminate | reflexivity].
Qed.

(** C8 on a page the CDN serves under another name: the validator of the
    detail page rejects it, and it is returned for its button. *)
Lemma rejected_document_returned_on_mobdisc_witness :
  attempt detail_page_valid
    (Sample.answer 200 "https://cdn.example/dw/7" (Sample.cdn_page "/fdl/7"))
  = Return (Some (Sample.cdn_page "/fdl/7"))
  <-> (str_in (lit "mobdisc") (lit "https://cdn.example/dw/7") = true
       \/ [Sample.anchor "/fdl/7"] <> []).
Proof.
  apply (rejected_document_returned_on_mobdisc detail_page_valid
           (mkResponse 200 (lit "https://cdn.example/dw/7")
              (Ok (Sample.cdn_page "/fdl/7")))
           (Sample.cdn_page "/fdl/7") [Sample.anchor "/fdl/7"]); reflexivity.
Defined.

(** ** The CDN page scanner *)

Lemma scan_buttons_passed_over btn rest :
  passed_over btn = true -> scan_buttons (btn :: rest) = scan_buttons rest.
Proof.
  unfold passed_over. cbn [scan_buttons].
  destruct (attr_get btn "href") as [href|]; [|reflexivity].
  destruct (negb (truthy href)); [reflexivity|].
  destruct (str_in (lit "t.me") href); [reflexivity|].
  cbn [orb]. intros H. apply negb_true_iff in H.
  apply orb_false_iff in H. destruct H as [H H3].
  apply orb_false_iff in H. destruct H as [H1 H2].
  rewrite H1, H2, H3. reflexivity.
Qed.





(** ** The URL normalizer *)

Section StringFacts.

Lemma startswith_app (p x : str) : startswith (p ++ x) p = true.
Proof.
  induction p as [|a p IH]; [destruct x; reflexivity|].
  cbn. rewrite N.eqb_refl. exact IH.
Qed.

Lemma startswith_split (p s : str) :
  startswith s p = true -> s = p ++ skipn (List.length p) s.
Proof.
  revert s. induction p as [|a p IH]; intros s H; [reflexivity|].
  destruct s as [|b s]; [discriminate H|].
  cbn in H. apply andb_true_iff in H. destruct H as [Hab H].
  apply N.eqb_eq in Hab. subst b. cbn. f_equal. apply IH, H.
Qed.

Lemma skipn_app_exact (p x : str) : skipn (List.length p) (p ++ x) = x.
Proof. induction p as [|a p IH]; [reflexivity | exact IH]. Qed.

Lemma firstn_app_exact (p x : str) : firstn (List.length p) (p ++ x) = p.
Proof. induction p as [|a p IH]; [reflexivity | cbn; f_equal; exact IH]. Qed.

Lemma take_while_idem f s : take_while f (take_while f s) = take_while f s.
Proof.
  induction s as [|c s IH]; [reflexivity|].
  cbn. destruct (f c) eqn:E; [|reflexivity].
  cbn. rewrite E, IH. reflexivity.
Qed.

Lemma str_in_single_cons c a s :
  str_in [c] (a :: s) = N.eqb c a || str_in [c] s.
Proof.
  cbn [str_in]. f_equal. cbn [startswith].
  destruct s; apply andb_true_r.
Qed.



End StringFacts.

Section SearchUrl.

Lemma url_match_at_eq s :
  url_match_at s =
  if startswith s (lit "https://") then match_after 8 s
  else if startswith s (lit "http://") then match_after 7 s
  else None.
Proof. reflexivity. Qed.

Lemma match_after_shape p s m :
  startswith s p = true ->
  match_after (List.length p) s = Some m ->
  exists body, m = p ++ body /\ body <> [] /\ take_while not_amp body = body.
Proof.
  intros Hp Hm. unfold match_after in Hm.
  pose proof (startswith_split _ _ Hp) as Hs.
  destruct (take_while not_amp (skipn (List.length p) s)) as [|b body] eqn:E;
    [discriminate Hm|].
  injection Hm as <-. exists (b :: body).
  split; [|split].
  - f_equal. rewrite Hs at 1. apply firstn_app_exact.
  - discriminate.
  - rewrite <- E. apply take_while_idem.
Qed.

Lemma match_after_whole p body :
  body <> [] -> take_while not_amp body = body ->
  match_after (List.length p) (p ++ body) = Some (p ++ body).
Proof.
  intros Hne Hb. unfold match_after.
  rewrite skipn_app_exact, firstn_app_exact, Hb.
  destruct body; [contradiction Hne; reflexivity | reflexivity].
Qed.

(** A match is matched whole by the pattern. *)
Lemma url_match_at_fixed s m :
  url_match_at s = Some m -> url_match_at m = Some m.
Proof.
  rewrite url_match_at_eq.
  destruct (startswith s (lit "https://")) eqn:E8.
  - intros H.
    destruct (match_after_shape (lit "https://") s m E8 H)
      as (body & -> & Hne & Hb).
    rewrite url_match_at_eq, startswith_app.
    apply (match_after_whole (lit "https://") body Hne Hb).
  - destruct (startswith s (lit "http://")) eqn:E7; [|discriminate].
    intros H.
    destruct (match_after_shape (lit "http://") s m E7 H)
      as (body & -> & Hne & Hb).
    rewrite url_match_at_eq.
    replace (startswith (lit "http://" ++ body) (lit "https://")) with false
      by reflexivity.
    rewrite startswith_app.
    apply (match_after_whole (lit "http://") body Hne Hb).
Qed.

Lemma re_search_url_fixed s m :
  re_search_url s = Some m -> url_match_at m = Some m.
Proof.
  induction s as [|c s IH]; cbn [re_search_url].
  - destruct (url_match_at []) eqn:E; [|discriminate].
    intros H; injection H as <-. exact (url_match_at_fixed _ _ E).
  - destruct (url_match_at (c :: s)) eqn:E; [|exact IH].
    intros H; injection H as <-. exact (url_match_at_fixed _ _ E).
Qed.


Lemma url_match_at_not_relative m :
  url_match_at m = Some m -> startswith m (lit "/") = false.
Proof.
  rewrite url_match_at_eq.
  destruct (startswith m (lit "https://")) eqn:E8.
  - intros _. rewrite (startswith_split _ _ E8). reflexivity.
  - destruct (startswith m (lit "http://")) eqn:E7; [|discriminate].
    intros _. rewrite (startswith_split _ _ E7). reflexivity.
Qed.


End SearchUrl.

(** Substrings, prefixes and what the pattern matches. *)

Lemma startswith_app_l (a r p : str) :
  startswith a p = true -> startswith (a ++ r) p = true.
Proof.
  revert a. induction p as [|c p IH]; intros a H.
  - destruct (a ++ r); reflexivity.
  - destruct a as [|b a]; [discriminate H|].
    cbn in H |- *. apply andb_true_iff in H. destruct H as [-> H].
    cbn. apply IH, H.
Qed.

Lemma str_in_nil_pattern (p : str) : p <> [] -> str_in p [] = false.
Proof. destruct p; [intros H; contradiction H; reflexivity | reflexivity]. Qed.

Lemma str_in_app_l (p a r : str) :
  str_in p a = true -> str_in p (a ++ r) = true.
Proof.
  induction a as [|b a IH]; intros H.
  - cbn in H. rewrite orb_false_r in H.
    destruct p; [destruct r; reflexivity | discriminate H].
  - cbn [str_in] in H. apply orb_true_iff in H.
    cbn [app str_in]. apply orb_true_iff.
    destruct H as [H | H];
      [left; exact (startswith_app_l (b :: a) r p H) | right; apply IH, H].
Qed.

Lemma str_in_app_r (p a r : str) :
  str_in p r = true -> str_in p (a ++ r) = true.
Proof.
  intros H. induction a as [|b a IH]; [exact H|].
  cbn [app str_in]. rewrite IH. apply orb_true_r.
Qed.

(** A part of a string that lacks [p] lacks [p]. *)
Lemma str_in_part (p a m r : str) :
  str_in p (a ++ m ++ r) = false -> str_in p m = false.
Proof.
  intros H. destruct (str_in p m) eqn:E; [|reflexivity].
  rewrite (str_in_app_r p a (m ++ r) (str_in_app_l p m r E)) in H.
  discriminate H.
Qed.

Lemma split_head_prefix (s sep : str) :
  exists r, s = split_head s sep ++ r.
Proof.
  induction s as [|c s [r IH]]; [exists []; reflexivity|].
  cbn [split_head]. destruct (startswith (c :: s) sep).
  - exists (c :: s). reflexivity.
  - exists r. cbn. f_equal. exact IH.
Qed.

(** What is kept in front of a separator does not hold the separator. *)
Lemma split_head_free (s sep : str) :
  sep <> [] -> str_in sep (split_head s sep) = false.
Proof.
  intros Hsep. induction s as [|c s IH]; [apply str_in_nil_pattern, Hsep|].
  cbn [split_head]. destruct (startswith (c :: s) sep) eqn:E;
    [apply str_in_nil_pattern, Hsep|].
  cbn [str_in]. rewrite IH, orb_false_r.
  destruct (startswith (c :: split_head s sep) sep) eqn:E'; [|reflexivity].
  destruct (split_head_prefix s sep) as [r Hr].
  apply (startswith_app_l _ r) in E'. cbn [app] in E'.
  rewrite <- Hr, E in E'. discriminate E'.
Qed.

(** A string put behind characters that differ from the first character of
    [p] holds [p] as often as before. *)
Lemma str_in_behind (a : N) (p d c : str) :
  forallb (fun x => negb (N.eqb a x)) d = true ->
  str_in (a :: p) (d ++ c) = str_in (a :: p) c.
Proof.
  induction d as [|x d IH]; intros H; [reflexivity|].
  cbn [forallb] in H. apply andb_true_iff in H. destruct H as [Hx H].
  apply negb_true_iff in Hx.
  cbn [app str_in startswith]. rewrite Hx. cbn [andb orb]. apply IH, H.
Qed.

Lemma str_in_single_app c (a b : str) :
  str_in [c] (a ++ b) = str_in [c] a || str_in [c] b.
Proof.
  induction a as [|x a IH].
  - cbn [app]. change (str_in [c] []) with false. reflexivity.
  - cbn [app]. rewrite !str_in_single_cons, IH. apply orb_assoc.
Qed.

Lemma take_while_split f (s : str) :
  exists r, s = take_while f s ++ r.
Proof.
  induction s as [|c s [r IH]]; [exists []; reflexivity|].
  cbn [take_while]. destruct (f c).
  - exists r. cbn. f_equal. exact IH.
  - exists (c :: s). reflexivity.
Qed.

Lemma take_while_not_amp_free (s : str) :
  str_in (lit "&") (take_while not_amp s) = false.
Proof.
  change (lit "&") with [38%N].
  induction s as [|c s IH]; [reflexivity|].
  cbn [take_while]. destruct (not_amp c) eqn:E; [|reflexivity].
  rewrite str_in_single_cons, IH, orb_false_r.
  unfold not_amp in E. apply negb_true_iff in E.
  rewrite N.eqb_sym. exact E.
Qed.

(** A match at the head of [s] is a scheme followed by characters other
    than the ampersand, and [s] starts with it. *)
Lemma url_match_at_shape s m :
  url_match_at s = Some m ->
  (startswith m (lit "https://") = true \/ startswith m (lit "http://") = true)
  /\ str_in (lit "&") m = false
  /\ exists post, s = m ++ post.
Proof.
  rewrite url_match_at_eq. unfold match_after.
  destruct (startswith s (lit "https://")) eqn:E8.
  - pose proof (startswith_split _ _ E8) as Hs.
    change (List.length (lit "https://")) with 8%nat in Hs.
    destruct (take_while_split not_amp (skipn 8 s)) as [post Hpost].
    pose proof (take_while_not_amp_free (skipn 8 s)) as Hfree.
    destruct (take_while not_amp (skipn 8 s)) as [|b body];
      [discriminate|].
    intros H.
    assert (Hf : firstn 8 s = lit "https://").
    { rewrite Hs at 1. apply (firstn_app_exact (lit "https://")). }
    assert (Hm : lit "https://" ++ b :: body = m).
    { rewrite <- Hf. injection H. exact (fun e => e). }
    clear H. subst m. split; [left; apply startswith_app|]. split.
    + change (lit "&") with [38%N] in *.
      rewrite str_in_single_app, Hfree. reflexivity.
    + exists post. rewrite Hs at 1. rewrite Hpost at 1.
      rewrite <- app_assoc. reflexivity.
  - destruct (startswith s (lit "http://")) eqn:E7; [|discriminate].
    pose proof (startswith_split _ _ E7) as Hs.
    change (List.length (lit "http://")) with 7%nat in Hs.
    destruct (take_while_split not_amp (skipn 7 s)) as [post Hpost].
    pose proof (take_while_not_amp_free (skipn 7 s)) as Hfree.
    destruct (take_while not_amp (skipn 7 s)) as [|b body];
      [discriminate|].
    intros H.
    assert (Hf : firstn 7 s = lit "http://").
    { rewrite Hs at 1. apply (firstn_app_exact (lit "http://")). }
    assert (Hm : lit "http://" ++ b :: body = m).
    { rewrite <- Hf. injection H. exact (fun e => e). }
    clear H. subst m. split; [right; apply startswith_app|]. split.
    + change (lit "&") with [38%N] in *.
      rewrite str_in_single_app, Hfree. reflexivity.
    + exists post. rewrite Hs at 1. rewrite Hpost at 1.
      rewrite <- app_assoc. reflexivity.
Qed.

Lemma re_search_url_shape s :
  forall m,
    re_search_url s = Some m ->
    (startswith m (lit "https://") = true
     \/ startswith m (lit "http://") = true)
    /\ str_in (lit "&") m = false
    /\ exists pre post, s = pre ++ m ++ post.
Proof.
  induction s as [|c s IH]; intros m; cbn [re_search_url].
  - destruct (url_match_at []) as [m'|] eqn:E; [|discriminate].
    intros H; injection H as <-.
    destruct (url_match_at_shape _ _ E) as (H1 & H2 & post & H3).
    repeat split; try assumption. exists [], post. exact H3.
  - destruct (url_match_at (c :: s)) as [m'|] eqn:E.
    + intros H; injection H as <-.
      destruct (url_match_at_shape _ _ E) as (H1 & H2 & post & H3).
      repeat split; try assumption. exists [], post. exact H3.
    + intros H. destruct (IH m H) as (H1 & H2 & pre & post & H3).
      repeat split; try assumption. exists (c :: pre), post.
      cbn. f_equal. exact H3.
Qed.

Section Normalizer.




End Normalizer.

(** The normalizer on the addresses the specification lists. *)
Example unwrap_google_url_examples :
  unwrap_google_url (lit "/fdl/abc") = lit "https://mobdisc.com/fdl/abc"
  /\ unwrap_google_url (lit "/game/xyz") = lit "https://pdalife.com/game/xyz"
  /\ unwrap_google_url (lit "https://site-com.translate.goog/a/b?_x_tr_sl=en")
     = lit "https://site.com/a/b"
  /\ unwrap_google_url
       (lit "https://www.google.com/url?q=https://mobdisc.com/fdl/1&sa=D")
     = lit "https://www.google.com/url?q=https://mobdisc.com/fdl/1".
Proof. repeat split. Qed.




(** ** The item pipeline *)

Section Monad.

Context {A B : Type}.

Lemma bind_done (m : M A) (k : A -> M B) w b w' :
  bind m k w = (Done b, w') ->
  exists a w1, m w = (Done a, w1) /\ k a w1 = (Done b, w').
Proof.
  unfold bind. destruct (m w) as [[a | e |] w1]; intros H;
    try discriminate H.
  exists a, w1. split; [reflexivity | exact H].
Qed.

Lemma bind_step (m : M A) (k : A -> M B) w a w1 :
  m w = (Done a, w1) -> bind m k w = k a w1.
Proof. unfold bind. intros ->. reflexivity. Qed.

Lemma lift_done (r : res A) w a w' :
  lift r w = (Done a, w') -> r = Ok a /\ w' = w.
Proof.
  unfold lift. destruct r; intros H; inversion H. split; reflexivity.
Qed.

Lemma ret_done (a a' : A) w w' :
  ret a w = (Done a', w') -> a' = a /\ w' = w.
Proof. unfold ret. intros H; inversion H. split; reflexivity. Qed.

End Monad.

Lemma nonempty_some (o : option str) (l : str) :
  nonempty o = Some l -> l <> [] /\ o = Some l.
Proof.
  destruct o as [[|c s]|]; cbn; intros H; try discriminate H.
  injection H as <-. split; [discriminate | reflexivity].
Qed.

Lemma nonempty_truthy (l : str) :
  truthy l = true -> nonempty (Some l) = Some l.
Proof. destruct l; [discriminate | reflexivity]. Qed.

Lemma is_magnet_truthy raw : is_magnet raw = true -> truthy raw = true.
Proof. destruct raw; [discriminate | reflexivity]. Qed.

(** Whatever [resolve_link] hands over to [final_data_list] is a non-empty
    string. *)
Lemma resolve_link_nonempty raw w l w' :
  resolve_link raw w = (Done (Some l), w') -> l <> [].
Proof.
  unfold resolve_link.
  destruct (nonempty raw) as [raw'|] eqn:Hraw.
  - apply nonempty_some in Hraw. destruct Hraw as [Hne _].
    destruct (is_magnet raw').
    + intros H. apply ret_done in H. destruct H as [H _].
      injection H as <-. exact Hne.
    + destruct (is_external raw'); intros H; apply bind_done in H;
        destruct H as (d & w1 & _ & H); apply ret_done in H;
        destruct H as [H _].
      * destruct (nonempty d) as [l'|] eqn:Hd; injection H as <-;
          [apply (nonempty_some _ _ Hd) | exact Hne].
      * symmetry in H. apply (nonempty_some _ _ H).
  - intros H. apply ret_done in H. destruct H as [H _]. discriminate H.
Qed.

Lemma resolved_nonempty w link_tags rs w' :
  resolved w link_tags rs w' -> Forall (fun l => l <> []) (kept rs).
Proof.
  induction 1 as [|w w1 w2 t ts r rs Hr _ IH]; [constructor|].
  destruct r as [l|]; cbn; [|exact IH].
  constructor; [exact (resolve_link_nonempty _ _ _ _ Hr) | exact IH].
Qed.

Lemma kept_push r rs : kept (r :: rs) = push r (kept rs).
Proof. reflexivity. Qed.

(** The loop appends to [final_data_list] what the variants resolve to, in
    their order. *)
Lemma resolve_links_in_order link_tags :
  forall index final_data_list main_size w links size' w',
    resolve_links index link_tags final_data_list main_size w
    = (Done (links, size'), w') ->
    exists rs, resolved w link_tags rs w'
               /\ links = final_data_list ++ kept rs.
Proof.
  induction link_tags as [|t ts IH];
    intros index acc sz w links sz' w' H.
  - apply ret_done in H. destruct H as [H ->]. injection H as -> ->.
    exists []. split; [constructor | symmetry; apply app_nil_r].
  - cbn [resolve_links] in H.
    apply bind_done in H. destruct H as (sz1 & w0 & Hsz & H).
    assert (w0 = w) as ->.
    { destruct (Nat.eqb index 0);
        [apply lift_done in Hsz | apply ret_done in Hsz]; apply Hsz. }
    apply bind_done in H. destruct H as (r & w1 & Hr & H).
    apply IH in H. destruct H as (rs & Hrs & ->).
    exists (r :: rs). split; [econstructor; eassumption|].
    rewrite kept_push. destruct r as [l|]; cbn [push]; [|reflexivity].
    rewrite <- app_assoc. reflexivity.
Qed.

Lemma resolve_links_cons index link_tag rest final_data_list main_size w :
  resolve_links index (link_tag :: rest) final_data_list main_size w =
  bind (if Nat.eqb index 0 then lift (size_of link_tag) else ret main_size)
    (fun main_size =>
       bind (resolve_link (attr_get link_tag "href")) (fun processed_link =>
       resolve_links (S index) rest
         (match processed_link with
          | Some l => final_data_list ++ [l]
          | None => final_data_list
          end) main_size)) w.
Proof. reflexivity. Qed.

Lemma resolve_link_magnet (raw : str) w :
  is_magnet raw = true ->
  resolve_link (Some raw) w = (Done (Some raw), w).
Proof.
  intros Hm. unfold resolve_link.
  rewrite (nonempty_truthy _ (is_magnet_truthy _ Hm)). cbv beta iota.
  rewrite Hm. reflexivity.
Qed.

Lemma resolve_link_external (raw : str) w d w' :
  truthy raw = true -> is_magnet raw = false -> is_external raw = true ->
  scan_cdn_page_loop raw w = (Done d, w') ->
  resolve_link (Some raw) w
  = (Done (Some (match nonempty d with
                 | Some direct_link => direct_link
                 | None => raw
                 end)), w').
Proof.
  intros Ht Hm He Hs. unfold resolve_link.
  rewrite (nonempty_truthy _ Ht). cbv beta iota.
  rewrite Hm, He, (bind_step _ _ _ _ _ Hs).
  destruct (nonempty d); reflexivity.
Qed.

Lemma resolve_link_other (raw : str) w d w' :
  truthy raw = true -> is_magnet raw = false -> is_external raw = false ->
  scan_cdn_page_loop (unwrap_google_url raw) w = (Done d, w') ->
  resolve_link (Some raw) w = (Done (nonempty d), w').
Proof.
  intros Ht Hm He Hs. unfold resolve_link.
  rewrite (nonempty_truthy _ Ht). cbv beta iota.
  rewrite Hm, He, (bind_step _ _ _ _ _ Hs). reflexivity.
Qed.

(** C3, as stated, fails: the loop tells an external link by substrings of
    the raw link.  A link to another host whose name ends in "pdalife.com"
    is absolute, external and no redirect, yet it is treated like an
    internal link and dropped when the scanner finds nothing; a relative
    path with "http" in a file name is neither absolute nor external, yet
    it is given as it is to the scanner and kept when the scanner finds
    nothing. *)
Lemma external_link_test_is_substring :
  spec_external (lit "https://notpdalife.com/get/1") = true
  /\ is_external (lit "https://notpdalife.com/get/1") = false
  /\ fst (resolve_link (Some (lit "https://notpdalife.com/get/1"))
            Sample.mirror_world)
     = Done None
  /\ spec_external (lit "/files/http-tool.apk") = false
  /\ is_magnet (lit "/files/http-tool.apk") = false
  /\ is_external (lit "/files/http-tool.apk") = true
  /\ fst (resolve_link (Some (lit "/files/http-tool.apk")) Sample.mirror_world)
     = Done (Some (lit "/files/http-tool.apk")).
Proof. vm_compute. repeat split. Qed.

(** C3 (amended): a magnet link is taken as it is, without any request; a
    link that holds "http" somewhere and holds neither "pdalife.com" nor
    "/dwn/" anywhere is given as it is to the CDN scanner and kept itself
    when the scanner finds nothing; any other link is normalized, given to
    the scanner and dropped when the scanner finds nothing; the links kept
    come in the order of the variants; and the variants "magnet:?xt=1" and
    "/dwn/redirect", the second resolving to a final link, give the magnet
    link followed by that final link. *)
Theorem resolve_link_by_kind :
  (forall raw w,
      is_magnet raw = true ->
      resolve_link (Some raw) w = (Done (Some raw), w))
  /\ (forall (raw : str) w d w',
      truthy raw = true -> is_magnet raw = false -> is_external raw = true ->
      scan_cdn_page_loop raw w = (Done d, w') ->
      resolve_link (Some raw) w
      = (Done (Some (match nonempty d with
                     | Some direct_link => direct_link
                     | None => raw
                     end)), w'))
  /\ (forall (raw : str) w d w',
      truthy raw = true -> is_magnet raw = false -> is_external raw = false ->
      scan_cdn_page_loop (unwrap_google_url raw) w = (Done d, w') ->
      resolve_link (Some raw) w = (Done (nonempty d), w'))
  /\ (forall link_tags w links size' w',
      resolve_links 0 link_tags [] [] w = (Done (links, size'), w') ->
      exists rs, resolved w link_tags rs w' /\ links = kept rs)
  /\ (forall t1 t2 main_size (final : str) w w',
      attr_get t1 "href" = Some (lit "magnet:?xt=1") ->
      size_of t1 = Ok main_size ->
      attr_get t2 "href" = Some (lit "/dwn/redirect") ->
      truthy final = true ->
      scan_cdn_page_loop (unwrap_google_url (lit "/dwn/redirect")) w
      = (Done (Some final), w') ->
      resolve_links 0 [t1; t2] [] [] w
      = (Done ([lit "magnet:?xt=1"; final], main_size), w')).
Proof.
  split; [|split; [|split; [|split]]].
  - exact resolve_link_magnet.
  - exact resolve_link_external.
  - exact resolve_link_other.
  - intros link_tags w links size' w' H.
    exact (resolve_links_in_order _ _ _ _ _ _ _ _ H).
  - intros t1 t2 main_size final w w' H1 Hsz H2 Hf Hs.
    rewrite resolve_links_cons, H1, Hsz. cbn [Nat.eqb].
    rewrite (bind_step _ _ w main_size w eq_refl).
    rewrite (bind_step _ _ _ _ _
               (resolve_link_magnet (lit "magnet:?xt=1") w eq_refl)).
    rewrite resolve_links_cons, H2. cbn [Nat.eqb].
    rewrite (bind_step _ _ w main_size w eq_refl).
    rewrite (bind_step _ _ _ _ _
               (resolve_link_other (lit "/dwn/redirect") w (Some final) w'
                  eq_refl eq_refl eq_refl Hs)).
    rewrite (nonempty_truthy _ Hf). reflexivity.
Qed.

(** C3 on a sample item: the magnet link and the resolved redirect, in that
    order; an external mirror that is gone is kept as it is; a redirect
    that is gone is dropped. *)
Lemma resolve_link_by_kind_witness :
  resolve_links 0
    [Sample.sized_button "magnet:?xt=1" "1.2 GB"; Sample.anchor "/dwn/redirect"]
    [] [] Sample.item_world
  = (Done ([lit "magnet:?xt=1"; lit "https://mobdisc.com/fdl/final"],
           lit "1.2 GB"),
     snd (scan_cdn_page_loop (lit "https://pdalife.com/dwn/redirect")
            Sample.item_world))
  /\ resolve_link (Some (lit "magnet:?xt=1")) Sample.item_world
     = (Done (Some (lit "magnet:?xt=1")), Sample.item_world)
  /\ fst (resolve_link (Some (lit "https://onlinerp.me/get")) Sample.item_world)
     = Done (Some (lit "https://onlinerp.me/get"))
  /\ fst (resolve_link (Some (lit "/dwn/gone")) Sample.item_world)
     = Done None.
Proof.
  destruct resolve_link_by_kind as (Hmagnet & Hext & Hother & _ & Htwo).
  split; [|split; [|split]].
  - apply Htwo; reflexivity.
  - apply Hmagnet. reflexivity.
  - rewrite (Hext (lit "https://onlinerp.me/get") Sample.item_world None
               (snd (scan_cdn_page_loop (lit "https://onlinerp.me/get")
                       Sample.item_world)));
      reflexivity.
  - rewrite (Hother (lit "/dwn/gone") Sample.item_world None
               (snd (scan_cdn_page_loop
                       (unwrap_google_url (lit "/dwn/gone"))
                       Sample.item_world)));
      reflexivity.
Defined.

(** C5: [process_item_fully] never returns a record without link: the
    [download] field of a record it returns joins a non-empty list of
    non-empty links; and when the loop over the variants ends with an empty
    [final_data_list], the call returns [None]. *)
Theorem process_item_fully_never_linkless :
  (forall name url image w r w',
      process_item_fully name url image w = (Done (Some r), w') ->
      exists links,
        links <> [] /\ Forall (fun l => l <> []) links
        /\ download r = join comma links)
  /\ (forall name url image w app_soup w1 link_tags size' w2,
      fetch_until_success url detail_page_valid w
      = (Done (Some app_soup), w1) ->
      collect_link_tags app_soup = Ok link_tags ->
      resolve_links 0 link_tags [] [] w1 = (Done ([], size'), w2) ->
      process_item_fully name url image w = (Done None, w2)).
Proof.
  split.
  - intros name url image w r w' H.
    unfold process_item_fully, try_except in H.
    destruct (process_item_body name url image w) as [[o | e |] w0] eqn:Hb;
      try discriminate H.
    injection H as -> ->. unfold process_item_body in Hb.
    apply bind_done in Hb. destruct Hb as ([app_soup|] & w1 & _ & Hb);
      [|discriminate Hb].
    apply bind_done in Hb. destruct Hb as (link_tags & w2 & _ & Hb).
    destruct (truthy link_tags); [|discriminate Hb]. cbn [negb] in Hb.
    apply bind_done in Hb. destruct Hb as ([links sz] & w3 & Hl & Hb).
    destruct (truthy links) eqn:Ht; [|discriminate Hb]. cbn [negb] in Hb.
    injection Hb as <- _.
    apply resolve_links_in_order in Hl. destruct Hl as (rs & Hrs & ->).
    exists (kept rs). cbn [app download]. split; [|split].
    + intros E. cbn [app] in Ht. rewrite E in Ht. discriminate Ht.
    + exact (resolved_nonempty _ _ _ _ Hrs).
    + reflexivity.
  - intros name url image w app_soup w1 link_tags size' w2 Hf Hc Hl.
    unfold process_item_fully, try_except, process_item_body.
    rewrite (bind_step _ _ _ _ _ Hf), Hc.
    unfold bind at 1. cbn [lift].
    destruct link_tags as [|t ts]; cbn [truthy negb].
    + cbn in Hl. injection Hl as _ <-. reflexivity.
    + rewrite (bind_step _ _ _ _ _ Hl). reflexivity.
Qed.

(** C5 on a sample item whose only variant is a redirect that is gone:
    [final_data_list] stays empty and no record is returned. *)
Lemma process_item_fully_never_linkless_witness :
  process_item_fully (lit "Lost") (lit "/game/lost") [] Sample.item_world
  = (Done None,
     snd (resolve_links 0 [Sample.anchor "/dwn/gone"] [] []
            (snd (fetch_until_success (lit "/game/lost") detail_page_valid
                    Sample.item_world)))).
Proof.
  destruct process_item_fully_never_linkless as [_ Hempty].
  apply (Hempty (lit "Lost") (lit "/game/lost") []
           Sample.item_world (Sample.detail_page [Sample.anchor "/dwn/gone"])
           (snd (fetch_until_success (lit "/game/lost") detail_page_valid
                   Sample.item_world))
           [Sample.anchor "/dwn/gone"] []).
  - run_sample.
  - reflexivity.
  - run_sample.
Defined.

(** ** A batch of item pipelines *)

Lemma process_item_fully_catches name detail_url image w o w' :
  process_item_body name detail_url image w = (o, w') ->
  o <> Spinning ->
  process_item_fully name detail_url image w = (Done (result_of o), w').
Proof.
  intros Hb Ho. unfold process_item_fully, try_except. rewrite Hb.
  destruct o as [r | e |]; [reflexivity | reflexivity|].
  contradiction Ho; reflexivity.
Qed.

Lemma process_item_fully_no_raise name detail_url image w e :
  fst (process_item_fully name detail_url image w) <> Raised e.
Proof.
  unfold process_item_fully, try_except.
  destruct (process_item_body name detail_url image w) as [[r | e' |] w'];
    discriminate.
Qed.

Lemma gather_batch w tasks os w' :
  batch w tasks os w' ->
  gather tasks w = (Done (List.map result_of os), w').
Proof.
  induction 1 as [|w w1 w2 name detail_link image tasks o os Hb Ho _ IH];
    [reflexivity|].
  cbn [gather run_task List.map].
  rewrite (bind_step _ _ _ _ _
             (process_item_fully_catches _ _ _ _ _ _ Hb Ho)).
  rewrite (bind_step _ _ _ _ _ IH). reflexivity.
Qed.

Lemma gather_no_raise tasks : forall w e, fst (gather tasks w) <> Raised e.
Proof.
  induction tasks as [|[[name detail_link] image] tasks IH]; intros w e;
    [discriminate|].
  cbn [gather run_task]. unfold bind at 1.
  pose proof (process_item_fully_no_raise name detail_link image w) as Hn.
  destruct (process_item_fully name detail_link image w) as [[r | e' |] w1].
  - unfold bind. specialize (IH w1).
    destruct (gather tasks w1) as [[rs | e' |] w2]; cbn [fst] in *;
      try discriminate.
    exact (IH e).
  - contradiction (Hn e'). reflexivity.
  - discriminate.
Qed.

Lemma valid_only_resolved os :
  Forall is_resolved os ->
  List.length (valid_only (List.map result_of os)) = List.length os.
Proof.
  induction 1 as [|o os [r ->] _ IH]; [reflexivity|].
  cbn. f_equal. exact IH.
Qed.

Lemma valid_only_app a b : valid_only (a ++ b) = valid_only a ++ valid_only b.
Proof.
  induction a as [|[r|] a IH]; cbn; [reflexivity | f_equal; exact IH | exact IH].
Qed.

(** C6: an exception raised in the body of one item pipeline is turned
    into [None] for that item; [process_item_fully] and [gather] never
    raise; the results of the other items of the batch come back all the
    same, and when all of them resolve, a batch of N items with one that
    raises gives N-1 valid results. *)
Theorem item_exception_stays_in_item :
  (forall name detail_url image w e w',
      process_item_body name detail_url image w = (Raised e, w') ->
      process_item_fully name detail_url image w = (Done None, w'))
  /\ (forall name detail_url image w e,
      fst (process_item_fully name detail_url image w) <> Raised e)
  /\ (forall tasks w e, fst (gather tasks w) <> Raised e)
  /\ (forall w tasks os w',
      batch w tasks os w' ->
      gather tasks w = (Done (List.map result_of os), w'))
  /\ (forall os1 e os2,
      Forall is_resolved os1 -> Forall is_resolved os2 ->
      List.length (valid_only (List.map result_of (os1 ++ Raised e :: os2)))
      = List.length (os1 ++ Raised e :: os2) - 1).
Proof.
  split; [|split; [|split; [|split]]].
  - intros name detail_url image w e w' Hb.
    apply (process_item_fully_catches _ _ _ _ _ _ Hb). discriminate.
  - exact process_item_fully_no_raise.
  - exact gather_no_raise.
  - exact gather_batch.
  - intros os1 e os2 H1 H2.
    rewrite List.map_app, valid_only_app, !List.length_app. cbn.
    rewrite (valid_only_resolved _ H1), (valid_only_resolved _ H2). lia.
Qed.

(** C6 on a sample batch of two items: selecting the version list raises
    on the detail page of the first, the second resolves, and the batch
    returns [None] and the record of the second. *)
Lemma item_exception_stays_in_item_witness :
  fst (process_item_body (lit "Broken") (lit "/game/broken") []
         Sample.batch_world)
  = Raised ParserError
  /\ fst (gather [(lit "Broken", lit "/game/broken", []);
                  (lit "Magnet", lit "/game/magnet", [])] Sample.batch_world)
     = Done [None; Some (Sample.found "Magnet" "https://pdalife.com/game/magnet")].
Proof.
  split; [vm_compute; reflexivity|].
  destruct item_exception_stays_in_item as (_ & _ & _ & Hbatch & _).
  erewrite (Hbatch Sample.batch_world _
              [Raised ParserError;
               Done (Some (Sample.found "Magnet"
                             "https://pdalife.com/game/magnet"))]);
    [reflexivity|].
  eapply batch_cons; [run_sample | discriminate|].
  eapply batch_cons; [run_sample | discriminate|].
  apply batch_nil.
Defined.

(** ** The search endpoint *)

Section Pagination.

Variable int_of : str -> res Z.

Lemma pagination_eq fuel query limit collected current_page max_page :
  pagination int_of fuel query limit collected current_page max_page =
  if negb (len collected <? limit)%Z then ret collected
  else
    match fuel with
    | O => fun w => (Spinning, w)
    | S fuel' =>
        soup <- fetch_until_success (search_url_of query current_page)
                  search_page_valid ;;
        match soup with
        | None => ret collected
        | Some soup =>
            text <- lift (get_text soup) ;;
            if str_in found_0 text then ret collected
            else
              page_items <- lift (select soup ".catalog-item") ;;
              if negb (truthy page_items) then ret collected
              else
                max_page <- lift (next_max_page int_of soup max_page) ;;
                if (current_page >=? max_page)%Z
                then ret (collected ++ page_items)
                else pagination int_of fuel' query limit
                       (collected ++ page_items)
                       (current_page + 1)%Z max_page
        end
    end.
Proof. destruct fuel; reflexivity. Qed.

(** The loop is left at once, without a request, when enough entries are
    there. *)
Lemma pagination_enough fuel query limit collected current_page max_page w :
  (limit <= len collected)%Z ->
  pagination int_of fuel query limit collected current_page max_page w
  = (Done collected, w).
Proof.
  intros H. rewrite pagination_eq.
  replace (len collected <? limit)%Z with false; [reflexivity|].
  symmetry. apply Z.ltb_ge. exact H.
Qed.

Lemma len_app_truthy (collected page_items : list Tag) :
  truthy page_items = true ->
  (len collected + 1 <= len (collected ++ page_items))%Z.
Proof.
  unfold len. rewrite List.length_app.
  destruct page_items; [discriminate|]. cbn [List.length]. lia.
Qed.

(** Fuel: a pass that goes on has added an entry, so as many passes as
    entries are still wanted are enough, and more passes change
    nothing. *)
Lemma pagination_fuel query limit fuel1 :
  forall fuel2 collected current_page max_page w,
    (Z.to_nat (limit - len collected) <= fuel1)%nat ->
    (Z.to_nat (limit - len collected) <= fuel2)%nat ->
    pagination int_of fuel1 query limit collected current_page max_page w
    = pagination int_of fuel2 query limit collected current_page max_page w.
Proof.
  induction fuel1 as [|fuel1 IH];
    intros fuel2 collected current_page max_page w H1 H2;
    rewrite (pagination_eq _ query), (pagination_eq fuel2 query);
    destruct (len collected <? limit)%Z eqn:Hlt; cbn [negb];
    try reflexivity; apply Z.ltb_lt in Hlt.
  - lia.
  - destruct fuel2 as [|fuel2]; [lia|].
    unfold bind, lift, ret.
    destruct (fetch_until_success _ _ w) as [[[soup|] | e |] w1];
      try reflexivity.
    destruct (get_text soup) as [text | e]; [|reflexivity].
    destruct (str_in found_0 text); [reflexivity|].
    destruct (select soup ".catalog-item") as [page_items | e];
      [|reflexivity].
    destruct (truthy page_items) eqn:Ht; cbn [negb]; [|reflexivity].
    destruct (next_max_page int_of soup max_page) as [m | e];
      [|reflexivity].
    destruct (current_page >=? m)%Z; [reflexivity|].
    pose proof (len_app_truthy collected page_items Ht).
    apply IH; lia.
Qed.

(** With the fuel [search_apps] gives it, the loop never runs dry. *)
Lemma pagination_total query limit more w :
  pagination int_of (Z.to_nat limit) query limit [] 1 1 w
  = pagination int_of (Z.to_nat limit + more) query limit [] 1 1 w.
Proof.
  apply pagination_fuel; change (len (@nil Tag)) with 0%Z;
    rewrite Z.sub_0_r; lia.
Qed.

Lemma next_max_page_kept soup max_page :
  no_max_page int_of soup -> next_max_page int_of soup max_page = Ok max_page.
Proof.
  intros (btn & Hsel & H). unfold next_max_page. rewrite Hsel. cbn.
  destruct btn as [b|]; [|reflexivity].
  destruct (attr_get b "data-max_page") as [v|]; [|reflexivity].
  destruct H as [e ->]. reflexivity.
Qed.

End Pagination.

Lemma gather_gathered tasks :
  forall w results w',
    gather tasks w = (Done results, w') -> gathered w tasks results w'.
Proof.
  induction tasks as [|t tasks IH]; intros w results w' H.
  - apply ret_done in H. destruct H as [-> ->]. constructor.
  - cbn [gather] in H.
    apply bind_done in H. destruct H as (r & w1 & Hr & H).
    apply bind_done in H. destruct H as (rs & w2 & Hrs & H).
    apply ret_done in H. destruct H as [-> ->].
    econstructor; [exact Hr | apply IH, Hrs].
Qed.

Lemma make_tasks_in_order items :
  forall tasks,
    make_tasks items = Ok tasks ->
    exists stubs,
      Forall2 (fun item stub => task_of item = Ok stub) items stubs
      /\ tasks = fold_right (@push task) [] stubs.
Proof.
  induction items as [|item items IH]; intros tasks H.
  - injection H as <-. exists []. split; constructor.
  - cbn [make_tasks] in H. unfold res_bind, res_map in H.
    destruct (task_of item) as [stub | e] eqn:Hs; [|discriminate H].
    destruct (make_tasks items) as [ts | e]; [|discriminate H].
    cbn in H. injection H as <-.
    destruct (IH ts eq_refl) as (stubs & Hall & ->).
    exists (stub :: stubs). split; [constructor; assumption | reflexivity].
Qed.

Lemma make_tasks_length items tasks :
  make_tasks items = Ok tasks -> (List.length tasks <= List.length items)%nat.
Proof.
  revert tasks. induction items as [|item items IH]; intros tasks H.
  - injection H as <-. reflexivity.
  - cbn [make_tasks] in H. unfold res_bind, res_map in H.
    destruct (task_of item) as [stub | e]; [|discriminate H].
    destruct (make_tasks items) as [ts | e]; [|discriminate H].
    cbn in H. injection H as <-. specialize (IH ts eq_refl).
    destruct stub; cbn; lia.
Qed.

Lemma gathered_length w tasks results w' :
  gathered w tasks results w' -> List.length results = List.length tasks.
Proof. induction 1; cbn; congruence. Qed.

Lemma valid_only_length results :
  (List.length (valid_only results) <= List.length results)%nat.
Proof. induction results as [|[r|] rs IH]; cbn; lia. Qed.

(** C4: for a positive limit, the pagination loop asks for no further page
    once the entries collected reach the limit; the entries dispatched are
    the first [limit] of those collected (all of them when there are
    fewer); and the results returned are the records of the dispatched
    entries that resolved, in the order of the entries, at most [limit] of
    them. *)
Theorem search_apps_respects_limit
  (int_of : str -> res Z) (query : str) (limit : Z) :
  (0 < limit)%Z ->
  (forall fuel collected current_page max_page w,
      (limit <= len collected)%Z ->
      pagination int_of fuel query limit collected current_page max_page w
      = (Done collected, w))
  /\ (forall w p w',
      search_apps int_of query limit w = (Done p, w') ->
      exists collected w1,
        pagination int_of (Z.to_nat limit) query limit [] 1 1 w
        = (Done collected, w1)
        /\ (collected = []
            \/ exists stubs tasks results,
                 List.length (firstn (Z.to_nat limit) collected)
                 = Nat.min (Z.to_nat limit) (List.length collected)
                 /\ Forall2 (fun item stub => task_of item = Ok stub)
                      (firstn (Z.to_nat limit) collected) stubs
                 /\ tasks = fold_right (@push task) [] stubs
                 /\ gathered w1 tasks results w'
                 /\ assoc_get p "results" = Some (VItems (valid_only results))
                 /\ (len (valid_only results) <= limit)%Z)).
Proof.
  intros Hpos. split.
  - intros fuel collected current_page max_page w.
    apply pagination_enough.
  - intros w p w' H. unfold search_apps in H.
    apply bind_done in H. destruct H as (collected & w1 & Hp & H).
    exists collected, w1. split; [exact Hp|].
    destruct collected as [|item collected]; [left; reflexivity | right].
    cbn [truthy negb] in H.
    apply bind_done in H. destruct H as (tasks & w2 & Ht & H).
    apply lift_done in Ht. destruct Ht as [Ht ->].
    apply bind_done in H. destruct H as (results & w3 & Hg & H).
    apply ret_done in H. destruct H as [-> ->].
    unfold slice_to in Ht.
    replace (limit <? 0)%Z with false in Ht by (symmetry; apply Z.ltb_ge; lia).
    destruct (make_tasks_in_order _ _ Ht) as (stubs & Hstubs & Htasks).
    apply gather_gathered in Hg.
    exists stubs, tasks, results.
    repeat split; try assumption.
    + apply List.length_firstn.
    + pose proof (make_tasks_length _ _ Ht) as L1.
      pose proof (gathered_length _ _ _ _ Hg) as L2.
      pose proof (valid_only_length results) as L3.
      pose proof (List.firstn_le_length (Z.to_nat limit) (item :: collected))
        as L4.
      rewrite List.length_firstn in L1. unfold len. lia.
Qed.

(** C4 on the sample search with a limit of 5 and two entries a page: the
    third page is the last one asked for, five entries are dispatched and
    the three that resolve come back in their order. *)
Lemma search_apps_respects_limit_witness :
  fst (search_apps Sample.int_digits (lit "quake") 5 Sample.search_world)
  = Done [("success", VBool true); ("query", VStr (lit "quake"));
          ("limit", VInt 5); ("count", VInt 3);
          ("results",
           VItems [Sample.found "B" "https://pdalife.com/game/b";
                   Sample.found "C" "https://pdalife.com/game/c";
                   Sample.found "E" "https://pdalife.com/game/e"])]
  /\ firstn 3 (requests
       (snd (search_apps Sample.int_digits (lit "quake") 5
               Sample.search_world)))
     = [lit "https://pdalife.com/search/quake";
        lit "https://pdalife.com/search/quake/page-2/";
        lit "https://pdalife.com/search/quake/page-3/"]
  /\ exists collected w1,
       pagination Sample.int_digits (Z.to_nat 5) (lit "quake") 5 [] 1 1
         Sample.search_world = (Done collected, w1)
       /\ (collected = []
           \/ exists stubs tasks results,
                List.length (firstn (Z.to_nat 5) collected)
                = Nat.min (Z.to_nat 5) (List.length collected)
                /\ Forall2 (fun item stub => task_of item = Ok stub)
                     (firstn (Z.to_nat 5) collected) stubs
                /\ tasks = fold_right (@push task) [] stubs
                /\ gathered w1 tasks results
                     (snd (search_apps Sample.int_digits (lit "quake") 5
                             Sample.search_world))
                /\ assoc_get
                     [("success", VBool true); ("query", VStr (lit "quake"));
                      ("limit", VInt 5); ("count", VInt 3);
                      ("results",
                       VItems [Sample.found "B" "https://pdalife.com/game/b";
                               Sample.found "C" "https://pdalife.com/game/c";
                               Sample.found "E" "https://pdalife.com/game/e"])]
                     "results"
                   = Some (VItems (valid_only results))
                /\ (len (valid_only results) <= 5)%Z).
Proof.
  split; [vm_compute; reflexivity|].
  split; [vm_compute; reflexivity|].
  apply (proj2 (search_apps_respects_limit Sample.int_digits (lit "quake") 5
                  eq_refl)).
  run_sample.
Defined.

(** C7 fails on a search that finds nothing: the dictionary returned has no
    [query] and no [limit] entry, which the other [return] of the endpoint
    does give. *)
Lemma search_apps_empty_payload_lacks_query :
  fst (search_apps Sample.int_digits (lit "zzz") 5 Sample.search_world)
  = Done [("success", VBool true); ("count", VInt 0); ("results", VItems [])]
  /\ assoc_get
       [("success", VBool true); ("count", VInt 0); ("results", VItems [])]
       "query" = None
  /\ assoc_get
       [("success", VBool true); ("count", VInt 0); ("results", VItems [])]
       "limit" = None.
Proof. vm_compute. repeat split. Qed.

(** C10: when the first page of results has no "Load More" element with a
    [data-max_page] that [int] reads, [max_page] keeps its value (1 at the
    start), the loop asks for no other page, and it returns the entries
    of that page even when they are fewer than the limit. *)
Theorem pagination_stops_without_max_page
  (int_of : str -> res Z) (query : str) (limit : Z) (w : World)
  (soup : Tag) (w1 : World) :
  (0 < limit)%Z ->
  fetch_until_success (search_url_of query 1) search_page_valid w
  = (Done (Some soup), w1) ->
  no_max_page int_of soup ->
  (forall max_page, next_max_page int_of soup max_page = Ok max_page)
  /\ snd (pagination int_of (Z.to_nat limit) query limit [] 1 1 w) = w1
  /\ (forall text page_items,
         get_text soup = Ok text -> str_in found_0 text = false ->
         select soup ".catalog-item" = Ok page_items ->
         pagination int_of (Z.to_nat limit) query limit [] 1 1 w
         = (Done page_items, w1)).
Proof.
  intros Hpos Hf Hno.
  assert (Hfuel : exists fuel, Z.to_nat limit = S fuel).
  { exists (Z.to_nat limit - 1)%nat. lia. }
  destruct Hfuel as [fuel ->].
  assert (Hlt : (len (@nil Tag) <? limit)%Z = true).
  { apply Z.ltb_lt. exact Hpos. }
  split; [|split].
  - intros max_page. apply next_max_page_kept, Hno.
  - rewrite pagination_eq, Hlt. cbn [negb].
    rewrite (bind_step _ _ _ _ _ Hf).
    unfold bind, lift, ret.
    destruct (get_text soup) as [text | e]; [|reflexivity].
    destruct (str_in found_0 text); [reflexivity|].
    destruct (select soup ".catalog-item") as [page_items | e];
      [|reflexivity].
    destruct (truthy page_items); cbn [negb]; [|reflexivity].
    rewrite (next_max_page_kept _ _ _ Hno). reflexivity.
  - intros text page_items Ht Hz Hs.
    rewrite pagination_eq, Hlt. cbn [negb].
    rewrite (bind_step _ _ _ _ _ Hf).
    unfold bind, lift, ret. rewrite Ht, Hz, Hs.
    destruct page_items as [|i items]; [reflexivity|]. cbn [truthy negb].
    rewrite (next_max_page_kept _ _ _ Hno). reflexivity.
Qed.

(** C10 on the sample search for "doom": its only page shows two entries
    and no "Load More" button, and with a limit of 5 the loop returns these
    two entries after that single request. *)
Lemma pagination_stops_without_max_page_witness :
  (forall max_page,
      next_max_page Sample.int_digits
        (Sample.results_page
           [Sample.entry "/game/b" "B"; Sample.entry "/game/a" "A"] None)
        max_page = Ok max_page)
  /\ requests
       (snd (pagination Sample.int_digits (Z.to_nat 5) (lit "doom") 5 [] 1 1
               Sample.search_world))
     = [lit "https://pdalife.com/search/doom"]
  /\ fst (pagination Sample.int_digits (Z.to_nat 5) (lit "doom") 5 [] 1 1
            Sample.search_world)
     = Done [Sample.entry "/game/b" "B"; Sample.entry "/game/a" "A"].
Proof.
  destruct (pagination_stops_without_max_page Sample.int_digits (lit "doom") 5
              Sample.search_world
              (Sample.results_page
                 [Sample.entry "/game/b" "B"; Sample.entry "/game/a" "A"] None)
              (snd (fetch_until_success (search_url_of (lit "doom") 1)
                      search_page_valid Sample.search_world)))
    as (Hkeep & Hworld & Hitems).
  - reflexivity.
  - run_sample.
  - exists None. split; [reflexivity | exact I].
  - split; [exact Hkeep|]. split.
    + rewrite Hworld. vm_compute. reflexivity.
    + rewrite (Hitems (lit "Search results")
                 [Sample.entry "/game/b" "B"; Sample.entry "/game/a" "A"]);
        reflexivity.
Defined.

(** * Further properties *)

(** ** The normalizer: what its result looks like *)

(** The three ways a result comes about. *)
Lemma unwrap_google_url_shape x :
  x <> [] ->
  (startswith (clean_url x) (lit "/") = true
   /\ (unwrap_google_url x = CDN_DOMAIN ++ clean_url x
       \/ unwrap_google_url x = BASE_DOMAIN ++ clean_url x))
  \/ (startswith (clean_url x) (lit "/") = false
      /\ unwrap_google_url x = clean_url x)
  \/ (startswith (clean_url x) (lit "/") = false
      /\ str_in (lit "https://") (clean_url x)
         && str_in (lit "http") (skipn 8 (clean_url x)) = true
      /\ re_search_url (clean_url x) = Some (unwrap_google_url x)).
Proof.
  intros Hx. destruct x as [|c x]; [contradiction Hx; reflexivity|].
  unfold unwrap_google_url.
  destruct (startswith (clean_url (c :: x)) (lit "/")) eqn:Hr.
  - left. split; [reflexivity|].
    destruct (startswith (clean_url (c :: x)) (lit "/fdl/"));
      [left | right]; reflexivity.
  - destruct (_ && _) eqn:Hn.
    + destruct (re_search_url (clean_url (c :: x))) as [m|] eqn:Hm.
      * right. right. repeat split; reflexivity.
      * right. left. split; reflexivity.
    + right. left. split; reflexivity.
Qed.

Lemma clean_url_no_tracking x :
  str_in (lit "?_x_tr_") (clean_url x) = false
  /\ str_in (lit "&_x_tr_") (clean_url x) = false.
Proof.
  unfold clean_url.
  set (c2 := replace _ (lit ".translate.goog") []).
  split.
  - destruct (split_head_prefix (split_head c2 (lit "?_x_tr_"))
                (lit "&_x_tr_")) as [r Hr].
    pose proof (split_head_free c2 (lit "?_x_tr_")) as Hfree.
    rewrite Hr in Hfree.
    apply (str_in_part (lit "?_x_tr_") [] _ r). cbn [app].
    apply Hfree. discriminate.
  - apply split_head_free. discriminate.
Qed.

(** X1: the normalizer never returns a root-relative address: its result
    does not start with a slash. *)
Theorem unwrap_google_url_never_relative (x : str) :
  startswith (unwrap_google_url x) (lit "/") = false.
Proof.
  destruct x as [|c x]; [reflexivity|].
  destruct (unwrap_google_url_shape (c :: x)) as [H | [H | H]];
    [discriminate | | |].
  - destruct H as (_ & [-> | ->]); reflexivity.
  - destruct H as (Hr & ->). exact Hr.
  - destruct H as (_ & _ & Hm).
    apply url_match_at_not_relative.
    exact (re_search_url_fixed _ _ Hm).
Qed.

(** X2: no translate parameter survives normalization: the result holds
    neither "?_x_tr_" nor "&_x_tr_". *)
Theorem unwrap_google_url_drops_tracking (x : str) :
  str_in (lit "?_x_tr_") (unwrap_google_url x) = false
  /\ str_in (lit "&_x_tr_") (unwrap_google_url x) = false.
Proof.
  destruct x as [|c x]; [split; reflexivity|].
  destruct (clean_url_no_tracking (c :: x)) as [Hq Ha].
  destruct (unwrap_google_url_shape (c :: x)) as [H | [H | H]];
    [discriminate | | |].
  - destruct H as (_ & [-> | ->]); split.
    + exact (eq_trans (str_in_behind 63 (lit "_x_tr_") CDN_DOMAIN _ eq_refl) Hq).
    + exact (eq_trans (str_in_behind 38 (lit "_x_tr_") CDN_DOMAIN _ eq_refl) Ha).
    + exact (eq_trans (str_in_behind 63 (lit "_x_tr_") BASE_DOMAIN _ eq_refl) Hq).
    + exact (eq_trans (str_in_behind 38 (lit "_x_tr_") BASE_DOMAIN _ eq_refl) Ha).
  - destruct H as (_ & ->). split; assumption.
  - destruct H as (_ & _ & Hm).
    destruct (re_search_url_shape _ _ Hm) as (_ & _ & pre & post & Hs).
    rewrite Hs in Hq, Ha.
    split; eapply str_in_part; eassumption.
Qed.

(** X3: when the cleaned address is not root-relative, holds "https://"
    and a further "http" past its first eight characters, and the pattern
    finds a URL in it, the result is that URL: a part of the cleaned
    address that starts with "http://" or "https://" and holds no
    ampersand. *)
Theorem unwrap_google_url_nested (x m : str) :
  startswith (clean_url x) (lit "/") = false ->
  str_in (lit "https://") (clean_url x)
  && str_in (lit "http") (skipn 8 (clean_url x)) = true ->
  re_search_url (clean_url x) = Some m ->
  unwrap_google_url x = m
  /\ (startswith m (lit "https://") = true
      \/ startswith m (lit "http://") = true)
  /\ str_in (lit "&") m = false
  /\ exists pre post, clean_url x = pre ++ m ++ post.
Proof.
  intros Hr Hn Hm. split; [|exact (re_search_url_shape _ _ Hm)].
  destruct x as [|c x]; [discriminate Hn|].
  unfold unwrap_google_url. rewrite Hr, Hn, Hm. reflexivity.
Qed.

(** X3 on an address wrapped in a Google redirect. *)
Lemma unwrap_google_url_nested_witness :
  unwrap_google_url
    (lit "https://www.google.com/url?q=https://mobdisc.com/fdl/1&sa=D")
  = lit "https://www.google.com/url?q=https://mobdisc.com/fdl/1"
  /\ str_in (lit "&")
       (lit "https://www.google.com/url?q=https://mobdisc.com/fdl/1") = false.
Proof.
  destruct (unwrap_google_url_nested
              (lit "https://www.google.com/url?q=https://mobdisc.com/fdl/1&sa=D")
              (lit "https://www.google.com/url?q=https://mobdisc.com/fdl/1")
              eq_refl eq_refl eq_refl) as (H1 & _ & H2 & _).
  split; assumption.
Defined.

(** ** The fetcher: what a call does to the network *)

Lemma str_eqb_refl (u : str) : str_eqb u u = true.
Proof. unfold str_eqb. destruct (list_eq_dec N.eq_dec u u); congruence. Qed.

Section FetchLoop.

Variable validator_func : Tag -> res bool.

Lemma fetch_loop_consumed evs :
forall n o n' rest,
  fetch_loop validator_func n evs = (o, n', rest) ->
  exists used, evs = used ++ rest /\ n' = (n + List.length used)%nat.
Proof.
induction evs as [|ev evs IH]; intros n o n' rest H.
- injection H as _ <- <-. exists []. split; [reflexivity | cbn; lia].
- rewrite fetch_loop_cons in H.
  destruct (attempt validator_func ev) as [|soup].
  + destruct (IH _ _ _ _ H) as (used & -> & ->).
    exists (ev :: used). split; [reflexivity | cbn; lia].
  + injection H as _ <- <-. exists [ev]. split; [reflexivity | cbn; lia].
Qed.

Lemma fetch_loop_no_raise evs :
forall n e, fst (fst (fetch_loop validator_func n evs)) <> Raised e.
Proof.
induction evs as [|ev evs IH]; intros n e; [discriminate|].
rewrite fetch_loop_cons.
destruct (attempt validator_func ev); [apply IH | discriminate].
Qed.

Lemma fetch_loop_decisive pre :
forall n ev rest soup,
  forallb (is_retry validator_func) pre = true ->
  attempt validator_func ev = Return soup ->
  fetch_loop validator_func n (pre ++ ev :: rest)
  = (Done soup, S (n + List.length pre), rest).
Proof.
induction pre as [|p pre IH]; intros n ev rest soup Hpre Hev.
- cbn [app]. rewrite fetch_loop_cons, Hev. f_equal. f_equal. cbn. lia.
- cbn [forallb] in Hpre. apply andb_true_iff in Hpre.
  destruct Hpre as [Hp Hpre]. unfold is_retry in Hp.
  cbn [app]. rewrite fetch_loop_cons.
  destruct (attempt validator_func p); [|discriminate Hp].
  rewrite (IH (S n) ev rest soup Hpre Hev). f_equal. f_equal. cbn. lia.
Qed.

Lemma fetch_loop_done evs :
forall n soup n' rest,
  fetch_loop validator_func n evs = (Done soup, n', rest) ->
  exists pre ev,
    evs = pre ++ ev :: rest
    /\ forallb (is_retry validator_func) pre = true
    /\ attempt validator_func ev = Return soup.
Proof.
induction evs as [|ev evs IH]; intros n soup n' rest H; [discriminate H|].
rewrite fetch_loop_cons in H.
destruct (attempt validator_func ev) as [|soup'] eqn:Hev.
- destruct (IH _ _ _ _ H) as (pre & ev' & -> & Hpre & Hev').
  exists (ev :: pre), ev'. split; [reflexivity|]. split; [|exact Hev'].
  cbn [forallb]. unfold is_retry at 1. rewrite Hev. exact Hpre.
- injection H as <- _ <-. exists [], ev. repeat split. exact Hev.
Qed.

Lemma fetch_loop_spinning evs :
forall n,
  fst (fst (fetch_loop validator_func n evs)) = Spinning
  <-> forallb (is_retry validator_func) evs = true.
Proof.
induction evs as [|ev evs IH]; intros n; [split; reflexivity|].
rewrite fetch_loop_cons. cbn [forallb]. unfold is_retry at 1.
destruct (attempt validator_func ev); [apply IH|].
split; discriminate.
Qed.

(** What a returned document went through. *)
Lemma attempt_return_document ev soup :
attempt validator_func ev = Return (Some soup) ->
exists r,
  ev = Answers r /\ parsed_status (status_code r) = true
  /\ parsed r = Ok soup
  /\ (validator_func soup = Ok true
      \/ validator_func soup = Ok false
         /\ mobdisc_detected r soup = Ok true).
Proof.
destruct ev as [e | r]; [discriminate|]. unfold attempt.
destruct (status_code r =? 429)%Z eqn:E1; [discriminate|].
destruct (status_code r >=? 500)%Z eqn:E2; [discriminate|].
destruct (status_code r =? 403)%Z eqn:E3; [discriminate|].
destruct (status_code r =? 451)%Z eqn:E4; [discriminate|].
destruct (status_code r =? 404)%Z eqn:E5; [discriminate|].
cbn [orb].
assert (Hs : parsed_status (status_code r) = true).
{ unfold parsed_status. rewrite E1, E2, E3, E4, E5. reflexivity. }
destruct (parsed r) as [doc | e] eqn:Hp; [|discriminate].
destruct (validator_func doc) as [[|] | e] eqn:Hv; [| |discriminate].
- intros H. injection H as <-. exists r.
  split; [reflexivity|]. split; [exact Hs|]. split; [exact Hp|].
  left. exact Hv.
- destruct (mobdisc_detected r doc) as [[|] | e] eqn:Hm;
    [| |discriminate].
  + intros H. injection H as <-. exists r.
    split; [reflexivity|]. split; [exact Hs|]. split; [exact Hp|].
    right. split; [exact Hv | exact Hm].
  + destruct (status_code r =? 200)%Z; discriminate.
Qed.

End FetchLoop.

(** X4: [fetch_until_success] never raises: what the client, the parser or
    the validator raise is caught inside the loop. *)
Theorem fetch_until_success_never_raises
  (url : str) (validator_func : Tag -> res bool) (w : World) (e : exn) :
  fst (fetch_until_success url validator_func w) <> Raised e.
Proof.
  rewrite fetch_until_success_unfold. cbn [fst]. apply fetch_loop_no_raise.
Qed.

(** X5: a call of [fetch_until_success] sends its requests to its target
    only: the events of the other addresses are left as they were, the
    events read are the first ones of the target, and one request to the
    target is logged for each event read. *)
Theorem fetch_until_success_frame
  (url : str) (validator_func : Tag -> res bool) (w : World) :
  (forall u, str_eqb u (target_of url) = false ->
             pending (snd (fetch_until_success url validator_func w)) u
             = pending w u)
  /\ exists used,
       pending w (target_of url)
       = used ++ pending (snd (fetch_until_success url validator_func w))
                   (target_of url)
       /\ requests (snd (fetch_until_success url validator_func w))
          = requests w ++ repeat (target_of url) (List.length used).
Proof.
  rewrite fetch_until_success_unfold. cbn [snd pending requests].
  split.
  - intros u Hu. unfold set_pending. rewrite Hu. reflexivity.
  - destruct (fetch_loop validator_func 0 (pending w (target_of url)))
      as [[o n] rest] eqn:Hl.
    destruct (fetch_loop_consumed _ _ _ _ _ _ Hl) as (used & Hused & ->).
    exists used. cbn [fst snd]. unfold set_pending.
    rewrite str_eqb_refl. split; [exact Hused | reflexivity].
Qed.

(** X6: a document that [fetch_until_success] returns is the parsed body of
    a response of the target that is neither 429, 5xx, 403, 451 nor 404,
    met after events that were all retried, and the validator accepted it
    or the MobDisc test held. *)
Theorem fetch_until_success_sound
  (url : str) (validator_func : Tag -> res bool) (w : World) (soup : Tag) :
  fst (fetch_until_success url validator_func w) = Done (Some soup) ->
  exists pre r,
    pending w (target_of url)
    = pre ++ Answers r
        :: pending (snd (fetch_until_success url validator_func w))
             (target_of url)
    /\ forallb (is_retry validator_func) pre = true
    /\ parsed_status (status_code r) = true
    /\ parsed r = Ok soup
    /\ (validator_func soup = Ok true
        \/ validator_func soup = Ok false
           /\ mobdisc_detected r soup = Ok true).
Proof.
  rewrite fetch_until_success_unfold. cbn [fst snd pending].
  unfold set_pending. rewrite str_eqb_refl.
  destruct (fetch_loop validator_func 0 (pending w (target_of url)))
    as [[o n] rest] eqn:Hl.
  cbn [fst snd]. intros ->.
  destruct (fetch_loop_done _ _ _ _ _ _ Hl) as (pre & ev & Hq & Hpre & Hev).
  destruct (attempt_return_document _ _ _ Hev) as (r & -> & Hs & Hp & Hv).
  exists pre, r. repeat split; assumption.
Qed.

(** X7: the first event that is not retried decides: behind any number of
    retried events, an event on which the loop returns makes the call
    return that value, with one request logged for each event up to it. *)
Theorem fetch_until_success_first_decisive
  (url : str) (validator_func : Tag -> res bool) (w : World)
  (pre : list Event) (ev : Event) (rest : list Event) (soup : option Tag) :
  pending w (target_of url) = pre ++ ev :: rest ->
  forallb (is_retry validator_func) pre = true ->
  attempt validator_func ev = Return soup ->
  fst (fetch_until_success url validator_func w) = Done soup
  /\ requests (snd (fetch_until_success url validator_func w))
     = requests w ++ repeat (target_of url) (S (List.length pre))
  /\ pending (snd (fetch_until_success url validator_func w)) (target_of url)
     = rest.
Proof.
  intros Hq Hpre Hev. rewrite fetch_until_success_unfold, Hq.
  rewrite (fetch_loop_decisive _ _ _ _ _ _ Hpre Hev).
  cbn [fst snd pending requests]. unfold set_pending.
  rewrite str_eqb_refl. repeat split.
Qed.

(** X8: the call is still retrying at the end of the known events exactly
    when every one of them is retried: a transport error, a 429, a 5xx, a
    body the parser or the validator chokes on, or a rejected document
    under another status than 200. *)
Theorem fetch_until_success_spins_iff
  (url : str) (validator_func : Tag -> res bool) (w : World) :
  fst (fetch_until_success url validator_func w) = Spinning
  <-> forallb (is_retry validator_func) (pending w (target_of url)) = true.
Proof.
  rewrite fetch_until_success_unfold. cbn [fst]. apply fetch_loop_spinning.
Qed.

(** X5 on the sample redirect that answers at the third request. *)
Lemma fetch_until_success_frame_witness :
  (forall u, str_eqb u (target_of (lit "/dwn/flaky")) = false ->
             pending (snd (fetch_until_success (lit "/dwn/flaky")
                             is_valid_mobdisc_page Sample.flaky_world)) u
             = pending Sample.flaky_world u)
  /\ exists used,
       pending Sample.flaky_world (target_of (lit "/dwn/flaky"))
       = used ++ pending (snd (fetch_until_success (lit "/dwn/flaky")
                                 is_valid_mobdisc_page Sample.flaky_world))
                   (target_of (lit "/dwn/flaky"))
       /\ requests (snd (fetch_until_success (lit "/dwn/flaky")
                           is_valid_mobdisc_page Sample.flaky_world))
          = requests Sample.flaky_world
            ++ repeat (target_of (lit "/dwn/flaky")) (List.length used).
Proof.
  exact (fetch_until_success_frame (lit "/dwn/flaky") is_valid_mobdisc_page
           Sample.flaky_world).
Defined.

(** X6 on the same redirect: the page returned is the body of its third
    event. *)
Lemma fetch_until_success_sound_witness :
  exists pre r,
    pending Sample.flaky_world (target_of (lit "/dwn/flaky"))
    = pre ++ Answers r
        :: pending (snd (fetch_until_success (lit "/dwn/flaky")
                           is_valid_mobdisc_page Sample.flaky_world))
             (target_of (lit "/dwn/flaky"))
    /\ forallb (is_retry is_valid_mobdisc_page) pre = true
    /\ parsed_status (status_code r) = true
    /\ parsed r = Ok (Sample.cdn_page "/fdl/ok")
    /\ (is_valid_mobdisc_page (Sample.cdn_page "/fdl/ok") = Ok true
        \/ is_valid_mobdisc_page (Sample.cdn_page "/fdl/ok") = Ok false
           /\ mobdisc_detected r (Sample.cdn_page "/fdl/ok") = Ok true).
Proof.
  apply (fetch_until_success_sound (lit "/dwn/flaky") is_valid_mobdisc_page
           Sample.flaky_world (Sample.cdn_page "/fdl/ok")).
  vm_compute. reflexivity.
Defined.

(** X7 on the same redirect: a transport error and a 503, then the page. *)
Lemma fetch_until_success_first_decisive_witness :
  fst (fetch_until_success (lit "/dwn/flaky") is_valid_mobdisc_page
         Sample.flaky_world)
  = Done (Some (Sample.cdn_page "/fdl/ok"))
  /\ requests (snd (fetch_until_success (lit "/dwn/flaky")
                      is_valid_mobdisc_page Sample.flaky_world))
     = requests Sample.flaky_world
       ++ repeat (target_of (lit "/dwn/flaky")) 3
  /\ pending (snd (fetch_until_success (lit "/dwn/flaky")
                     is_valid_mobdisc_page Sample.flaky_world))
       (target_of (lit "/dwn/flaky"))
     = [Sample.answer 200 "https://mobdisc.com/dw/flaky" Sample.empty_page].
Proof.
  apply (fetch_until_success_first_decisive (lit "/dwn/flaky")
           is_valid_mobdisc_page Sample.flaky_world
           [Fails TransportError;
            Sample.answer 503 "https://pdalife.com/dwn/flaky" Sample.empty_page]
           (Sample.answer 200 "https://mobdisc.com/dw/flaky"
              (Sample.cdn_page "/fdl/ok")));
    reflexivity.
Defined.

(** X8 on the sample redirect that is down: a transport error, a 502 and
    a rejected 400 leave the call retrying. *)
Lemma fetch_until_success_spins_iff_witness :
  fst (fetch_until_success (lit "/dwn/down") is_valid_mobdisc_page
         Sample.flaky_world)
  = Spinning.
Proof.
  apply (proj2 (fetch_until_success_spins_iff (lit "/dwn/down")
                  is_valid_mobdisc_page Sample.flaky_world)).
  reflexivity.
Defined.

(** ** The CDN page scanner: when it finds a link and which *)

Lemma passed_over_usable btn :
  passed_over btn = false ->
  exists href,
    attr_get btn "href" = Some href /\ truthy href = true
    /\ str_in (lit "t.me") href = false
    /\ (str_in (lit "/fdl/") href
        || startswith href (lit "#/download/")
        || (str_in (lit "http") href && str_in (lit "mobdisc.com") href)) = true.
Proof.
  unfold passed_over.
  destruct (attr_get btn "href") as [href|]; [|discriminate].
  intros H. apply orb_false_iff in H. destruct H as [H H3].
  apply orb_false_iff in H. destruct H as [H1 H2].
  apply negb_false_iff in H1, H3.
  exists href. repeat split; assumption.
Qed.

Lemma scan_buttons_usable btn rest href :
  attr_get btn "href" = Some href -> truthy href = true ->
  str_in (lit "t.me") href = false ->
  (str_in (lit "/fdl/") href
   || startswith href (lit "#/download/")
   || (str_in (lit "http") href && str_in (lit "mobdisc.com") href)) = true ->
  scan_buttons (btn :: rest) =
  Some (if str_in (lit "/fdl/") href then unwrap_google_url href
        else if startswith href (lit "#/download/")
             then CDN_DOMAIN ++ skipn 1 href
             else href).
Proof.
  intros Hh Ht Hm Hr. cbn [scan_buttons]. rewrite Hh, Ht, Hm. cbn [negb].
  destruct (str_in (lit "/fdl/") href); [reflexivity|].
  destruct (startswith href (lit "#/download/")); [reflexivity|].
  cbn [orb] in Hr. rewrite Hr. reflexivity.
Qed.

(** X9: the scan of the buttons finds no link exactly when every button is
    passed over: it has no link, an empty one, a Telegram one, or one that
    none of the three rules accepts. *)
Theorem scan_buttons_none_iff (buttons : list Tag) :
  scan_buttons buttons = None <-> forallb passed_over buttons = true.
Proof.
  induction buttons as [|btn rest IH]; [split; reflexivity|].
  cbn [forallb]. destruct (passed_over btn) eqn:Hp.
  - rewrite (scan_buttons_passed_over _ _ Hp). exact IH.
  - destruct (passed_over_usable _ Hp) as (href & Hh & Ht & Hm & Hr).
    rewrite (scan_buttons_usable _ rest _ Hh Ht Hm Hr).
    split; discriminate.
Qed.

(** X10: a link the scan returns comes from one of the buttons, whose own
    link is not empty and does not hold "t.me"; it is the normalized link
    when that holds "/fdl/", else the CDN origin followed by the link
    without its "#" when it starts with "#/download/", else the link
    itself, which then holds "http" and "mobdisc.com". *)
Theorem scan_buttons_origin (buttons : list Tag) (l : str) :
  scan_buttons buttons = Some l ->
  exists btn href,
    In btn buttons /\ attr_get btn "href" = Some href
    /\ href <> [] /\ str_in (lit "t.me") href = false
    /\ (str_in (lit "/fdl/") href = true /\ l = unwrap_google_url href
        \/ str_in (lit "/fdl/") href = false
           /\ startswith href (lit "#/download/") = true
           /\ l = CDN_DOMAIN ++ skipn 1 href
        \/ str_in (lit "/fdl/") href = false
           /\ startswith href (lit "#/download/") = false
           /\ str_in (lit "http") href = true
           /\ str_in (lit "mobdisc.com") href = true
           /\ l = href).
Proof.
  induction buttons as [|btn rest IH]; [discriminate|].
  destruct (passed_over btn) eqn:Hp.
  - rewrite (scan_buttons_passed_over _ _ Hp). intros H.
    destruct (IH H) as (b & href & Hin & Hrest).
    exists b, href. split; [right; exact Hin | exact Hrest].
  - destruct (passed_over_usable _ Hp) as (href & Hh & Ht & Hm & Hr).
    rewrite (scan_buttons_usable _ rest _ Hh Ht Hm Hr).
    intros H. injection H as <-.
    exists btn, href. split; [left; reflexivity|]. split; [exact Hh|].
    split; [intros E; rewrite E in Ht; discriminate Ht|].
    split; [exact Hm|].
    destruct (str_in (lit "/fdl/") href); [left; split; reflexivity|].
    destruct (startswith href (lit "#/download/"));
      [right; left; repeat split|].
    cbn [orb] in Hr. apply andb_true_iff in Hr. destruct Hr as [H1 H2].
    right. right. repeat split; assumption.
Qed.

(** X10 on a sample list: a button without link, a Telegram button and a
    direct MobDisc link. *)
Lemma scan_buttons_origin_witness :
  exists btn href,
    In btn [Sample.empty_page; Sample.anchor "https://t.me/mobdisc";
            Sample.anchor "https://mobdisc.com/get/9"]
    /\ attr_get btn "href" = Some href
    /\ href <> [] /\ str_in (lit "t.me") href = false
    /\ (str_in (lit "/fdl/") href = true
        /\ lit "https://mobdisc.com/get/9" = unwrap_google_url href
        \/ str_in (lit "/fdl/") href = false
           /\ startswith href (lit "#/download/") = true
           /\ lit "https://mobdisc.com/get/9" = CDN_DOMAIN ++ skipn 1 href
        \/ str_in (lit "/fdl/") href = false
           /\ startswith href (lit "#/download/") = false
           /\ str_in (lit "http") href = true
           /\ str_in (lit "mobdisc.com") href = true
           /\ lit "https://mobdisc.com/get/9" = href).
Proof.
  apply (scan_buttons_origin
           [Sample.empty_page; Sample.anchor "https://t.me/mobdisc";
            Sample.anchor "https://mobdisc.com/get/9"]).
  reflexivity.
Defined.

(** X11: [scan_cdn_page_loop] asks for its own target only, and never
    reads the events of another address. *)
Theorem scan_cdn_page_loop_frame (dwn_url : str) (w : World) :
  (forall u, str_eqb u (target_of dwn_url) = false ->
             pending (snd (scan_cdn_page_loop dwn_url w)) u = pending w u)
  /\ exists n,
       requests (snd (scan_cdn_page_loop dwn_url w))
       = requests w ++ repeat (target_of dwn_url) n.
Proof.
  unfold scan_cdn_page_loop, bind.
  pose proof (fetch_until_success_unfold is_valid_mobdisc_page dwn_url w)
    as Hf.
  destruct (fetch_until_success dwn_url is_valid_mobdisc_page w)
    as [o w1] eqn:E.
  injection Hf as _ Hw.
  assert (Hframe :
    (forall u, str_eqb u (target_of dwn_url) = false ->
               pending w1 u = pending w u)
    /\ exists n, requests w1 = requests w ++ repeat (target_of dwn_url) n).
  { rewrite Hw. cbn [pending requests]. split.
    - intros u Hu. unfold set_pending. rewrite Hu. reflexivity.
    - eexists. reflexivity. }
  destruct o as [[soup|] | e |]; cbn [snd]; try exact Hframe.
  unfold lift, ret.
  destruct (select soup "a.b-download__button"); exact Hframe.
Qed.

(** X11 on the sample redirect that answers at the third request. *)
Lemma scan_cdn_page_loop_frame_witness :
  (forall u, str_eqb u (target_of (lit "/dwn/flaky")) = false ->
             pending (snd (scan_cdn_page_loop (lit "/dwn/flaky")
                             Sample.flaky_world)) u
             = pending Sample.flaky_world u)
  /\ exists n,
       requests (snd (scan_cdn_page_loop (lit "/dwn/flaky")
                        Sample.flaky_world))
       = requests Sample.flaky_world
         ++ repeat (target_of (lit "/dwn/flaky")) n.
Proof.
  exact (scan_cdn_page_loop_frame (lit "/dwn/flaky") Sample.flaky_world).
Defined.

(** ** The item pipeline: what a record holds *)

Lemma resolved_length w link_tags rs w' :
  resolved w link_tags rs w' -> List.length rs = List.length link_tags.
Proof. induction 1; cbn; congruence. Qed.

Lemma kept_length rs : (List.length (kept rs) <= List.length rs)%nat.
Proof.
  induction rs as [|[l|] rs IH]; [reflexivity| |];
    rewrite kept_push; cbn [push List.length]; lia.
Qed.

(** Past the first tag, the loop leaves [main_size] alone. *)
Lemma resolve_links_size_kept link_tags :
  forall index final_data_list main_size w links size' w',
    resolve_links (S index) link_tags final_data_list main_size w
    = (Done (links, size'), w') ->
    size' = main_size.
Proof.
  induction link_tags as [|t ts IH];
    intros index acc sz w links sz' w' H.
  - apply ret_done in H. destruct H as [H _]. injection H as _ ->.
    reflexivity.
  - rewrite resolve_links_cons in H. cbn [Nat.eqb] in H.
    apply bind_done in H. destruct H as (sz1 & w0 & Hsz & H).
    apply ret_done in Hsz. destruct Hsz as [-> ->].
    apply bind_done in H. destruct H as (r & w1 & _ & H).
    exact (IH _ _ _ _ _ _ _ H).
Qed.

Lemma resolve_links_size_first link_tag rest :
  forall final_data_list main_size w links size' w',
    resolve_links 0 (link_tag :: rest) final_data_list main_size w
    = (Done (links, size'), w') ->
    size_of link_tag = Ok size'.
Proof.
  intros acc sz w links sz' w' H.
  rewrite resolve_links_cons in H. cbn [Nat.eqb] in H.
  apply bind_done in H. destruct H as (sz1 & w0 & Hsz & H).
  apply lift_done in Hsz. destruct Hsz as [Hsz ->].
  apply bind_done in H. destruct H as (r & w1 & _ & H).
  apply resolve_links_size_kept in H. subst sz1. exact Hsz.
Qed.

(** What a run of the pipeline that returns a record went through. *)
Lemma process_item_fully_record name detail_url image w r w' :
  process_item_fully name detail_url image w = (Done (Some r), w') ->
  exists app_soup w1 link_tags links main_size,
    fetch_until_success detail_url detail_page_valid w
    = (Done (Some app_soup), w1)
    /\ collect_link_tags app_soup = Ok link_tags
    /\ resolve_links 0 link_tags [] [] w1 = (Done (links, main_size), w')
    /\ r = {| name := name; link := unwrap_google_url detail_url;
              image := image; download := join comma links;
              size := main_size |}.
Proof.
  intros H. unfold process_item_fully, try_except in H.
  destruct (process_item_body name detail_url image w) as [[o | e |] w0] eqn:Hb;
    try discriminate H.
  injection H as -> ->. unfold process_item_body in Hb.
  apply bind_done in Hb. destruct Hb as ([app_soup|] & w1 & Hf & Hb);
    [|discriminate Hb].
  apply bind_done in Hb. destruct Hb as (link_tags & w2 & Hc & Hb).
  apply lift_done in Hc. destruct Hc as [Hc ->].
  destruct (truthy link_tags); [|discriminate Hb]. cbn [negb] in Hb.
  apply bind_done in Hb. destruct Hb as ([links sz] & w3 & Hl & Hb).
  destruct (truthy links); [|discriminate Hb]. cbn [negb] in Hb.
  injection Hb as <- <-.
  exists app_soup, w1, link_tags, links, sz. repeat split; assumption.
Qed.

(** X12: a record the pipeline returns carries the name and the image it
    was given, the normalized address of the detail page, and as its size
    the label of the first download button of the page, whatever became
    of that button's link. *)
Theorem process_item_fully_fields
  (item_name detail_url item_image : str) (w : World) (r : Item) (w' : World) :
  process_item_fully item_name detail_url item_image w = (Done (Some r), w') ->
  name r = item_name
  /\ image r = item_image
  /\ link r = unwrap_google_url detail_url
  /\ exists app_soup w1 first rest,
       fetch_until_success detail_url detail_page_valid w
       = (Done (Some app_soup), w1)
       /\ collect_link_tags app_soup = Ok (first :: rest)
       /\ size_of first = Ok (size r).
Proof.
  intros H.
  destruct (process_item_fully_record _ _ _ _ _ _ H)
    as (app_soup & w1 & link_tags & links & sz & Hf & Hc & Hl & ->).
  cbn [name image link size]. repeat split.
  destruct link_tags as [|first rest].
  - cbn in Hl. injection Hl as <- _ _.
    unfold process_item_fully, try_except, process_item_body in H.
    rewrite (bind_step _ _ _ _ _ Hf), Hc in H. discriminate H.
  - exists app_soup, w1, first, rest.
    split; [exact Hf|]. split; [exact Hc|].
    exact (resolve_links_size_first _ _ _ _ _ _ _ _ Hl).
Qed.

(** X12 on the sample item with a magnet link and a redirect. *)
Lemma process_item_fully_fields_witness :
  name (Sample.found "Magnet" "https://pdalife.com/game/magnet") = lit "Magnet"
  /\ image (Sample.found "Magnet" "https://pdalife.com/game/magnet") = []
  /\ link (Sample.found "Magnet" "https://pdalife.com/game/magnet")
     = unwrap_google_url (lit "/game/magnet")
  /\ exists app_soup w1 first rest,
       fetch_until_success (lit "/game/magnet") detail_page_valid
         Sample.batch_world
       = (Done (Some app_soup), w1)
       /\ collect_link_tags app_soup = Ok (first :: rest)
       /\ size_of first
          = Ok (size (Sample.found "Magnet" "https://pdalife.com/game/magnet")).
Proof.
  apply (process_item_fully_fields (lit "Magnet") (lit "/game/magnet") []
           Sample.batch_world
           (Sample.found "Magnet" "https://pdalife.com/game/magnet")
           (snd (process_item_fully (lit "Magnet") (lit "/game/magnet") []
                   Sample.batch_world))).
  run_sample.
Defined.

(** X13: variants that are all magnet links are all kept, in their order,
    without a single request: the network is left as it was. *)
Theorem resolve_links_magnets_only
  (first : Tag) (rest : list Tag) (hrefs : list str) (main_size : str)
  (w : World) :
  Forall2 (fun link_tag href =>
             attr_get link_tag "href" = Some href /\ is_magnet href = true)
    (first :: rest) hrefs ->
  size_of first = Ok main_size ->
  resolve_links 0 (first :: rest) [] [] w = (Done (hrefs, main_size), w).
Proof.
  intros Hall Hsz.
  assert (Hgen : forall link_tags hs,
    Forall2 (fun link_tag href =>
               attr_get link_tag "href" = Some href /\ is_magnet href = true)
      link_tags hs ->
    forall index acc,
      resolve_links (S index) link_tags acc main_size w
      = (Done (acc ++ hs, main_size), w)).
  { induction 1 as [|t h ts hs [Hh Hm] _ IH]; intros index acc.
    - cbn. rewrite app_nil_r. reflexivity.
    - rewrite resolve_links_cons, Hh. cbn [Nat.eqb].
      rewrite (bind_step _ _ w main_size w eq_refl).
      rewrite (bind_step _ _ _ _ _ (resolve_link_magnet h w Hm)).
      rewrite IH, <- app_assoc. reflexivity. }
  inversion Hall as [|t h ts hs [Hh Hm] Hrest]; subst.
  rewrite resolve_links_cons, Hh, Hsz. cbn [Nat.eqb].
  rewrite (bind_step _ _ w main_size w eq_refl).
  rewrite (bind_step _ _ _ _ _ (resolve_link_magnet h w Hm)).
  rewrite (Hgen _ _ Hrest). reflexivity.
Qed.

(** X13 on two magnet buttons. *)
Lemma resolve_links_magnets_only_witness :
  resolve_links 0
    [Sample.sized_button "magnet:?xt=1" "1.2 GB"; Sample.anchor "magnet:?xt=2"]
    [] [] Sample.item_world
  = (Done ([lit "magnet:?xt=1"; lit "magnet:?xt=2"], lit "1.2 GB"),
     Sample.item_world).
Proof.
  apply resolve_links_magnets_only; [|reflexivity].
  repeat constructor.
Defined.

(** X14: the loop over the variants keeps at most one link for each
    variant. *)
Theorem resolve_links_at_most_one_each
  (link_tags : list Tag) (w : World) (links : list str) (main_size : str)
  (w' : World) :
  resolve_links 0 link_tags [] [] w = (Done (links, main_size), w') ->
  (List.length links <= List.length link_tags)%nat.
Proof.
  intros H.
  destruct (resolve_links_in_order _ _ _ _ _ _ _ _ H) as (rs & Hrs & ->).
  cbn [app]. rewrite <- (resolved_length _ _ _ _ Hrs). apply kept_length.
Qed.

(** X14 on the sample item: two variants, two links. *)
Lemma resolve_links_at_most_one_each_witness :
  (List.length [lit "magnet:?xt=1"; lit "https://mobdisc.com/fdl/final"]
   <= List.length [Sample.sized_button "magnet:?xt=1" "1.2 GB";
                   Sample.anchor "/dwn/redirect"])%nat.
Proof.
  apply (resolve_links_at_most_one_each
           [Sample.sized_button "magnet:?xt=1" "1.2 GB";
            Sample.anchor "/dwn/redirect"]
           Sample.item_world
           [lit "magnet:?xt=1"; lit "https://mobdisc.com/fdl/final"]
           (lit "1.2 GB")
           (snd (resolve_links 0
                   [Sample.sized_button "magnet:?xt=1" "1.2 GB";
                    Sample.anchor "/dwn/redirect"] [] [] Sample.item_world))).
  run_sample.
Defined.

Lemma list_buttons_none items :
  Forall (fun item =>
            select_one item "a.game-versions__downloads-button" = Ok None)
    items ->
  list_buttons items = Ok [].
Proof.
  induction 1 as [|item items Hi _ IH]; [reflexivity|].
  cbn [list_buttons]. rewrite Hi, IH. reflexivity.
Qed.

(** X15: when the version list of a detail page is not empty, the
    standalone download buttons of the page are not looked at: if no entry
    of the list holds a button, the pipeline returns [None] right after the
    detail page, whatever buttons stand elsewhere on the page. *)
Theorem process_item_fully_list_without_buttons
  (item_name detail_url item_image : str) (w : World) (app_soup : Tag)
  (w1 : World) (item : Tag) (items : list Tag) :
  fetch_until_success detail_url detail_page_valid w
  = (Done (Some app_soup), w1) ->
  select app_soup ".game-versions__downloads-list li" = Ok (item :: items) ->
  Forall (fun item =>
            select_one item "a.game-versions__downloads-button" = Ok None)
    (item :: items) ->
  process_item_fully item_name detail_url item_image w = (Done None, w1).
Proof.
  intros Hf Hs Hall.
  unfold process_item_fully, try_except, process_item_body.
  rewrite (bind_step _ _ _ _ _ Hf).
  unfold collect_link_tags. rewrite Hs. cbn [res_bind truthy].
  rewrite (list_buttons_none _ Hall). reflexivity.
Qed.

(** X15 on a sample page: one list entry without button, one standalone
    magnet button. *)
Lemma process_item_fully_list_without_buttons_witness :
  process_item_fully (lit "Odd") (lit "/game/odd") [] Sample.odd_world
  = (Done None,
     snd (fetch_until_success (lit "/game/odd") detail_page_valid
            Sample.odd_world))
  /\ select Sample.listed_without_button "a.game-versions__downloads-button"
     = Ok [Sample.anchor "magnet:?xt=9"].
Proof.
  split; [|reflexivity].
  apply (process_item_fully_list_without_buttons (lit "Odd") (lit "/game/odd")
           [] Sample.odd_world Sample.listed_without_button
           (snd (fetch_until_success (lit "/game/odd") detail_page_valid
                   Sample.odd_world))
           Sample.empty_page []).
  - run_sample.
  - reflexivity.
  - repeat constructor.
Defined.

(** ** The search endpoint: its answer and its requests *)

Lemma target_of_search_url query page :
  target_of (search_url_of query page) = search_url_of query page.
Proof.
  unfold target_of, search_url_of. destruct (page =? 1)%Z; reflexivity.
Qed.

Lemma make_tasks_raise pre :
  forall tasks item post e,
    make_tasks pre = Ok tasks -> task_of item = Raise e ->
    make_tasks (pre ++ item :: post) = Raise e.
Proof.
  induction pre as [|p pre IH]; intros tasks item post e Hpre Hi.
  - cbn [app make_tasks]. rewrite Hi. reflexivity.
  - cbn [app make_tasks] in Hpre |- *.
    destruct (task_of p) as [t | e']; [|discriminate Hpre].
    cbn [res_bind] in Hpre |- *.
    destruct (make_tasks pre) as [ts | e'] eqn:Hts; [|discriminate Hpre].
    rewrite (IH ts item post e eq_refl Hi). reflexivity.
Qed.

Lemma str_eqb_true (u v : str) : str_eqb u v = true -> u = v.
Proof.
  unfold str_eqb. destruct (list_eq_dec N.eq_dec u v); [trivial | discriminate].
Qed.

(** A call of the fetcher only takes events away from the front. *)
Lemma fetch_pending_suffix url validator_func w o w1 :
  fetch_until_success url validator_func w = (o, w1) ->
  forall u, exists used, pending w u = used ++ pending w1 u.
Proof.
  rewrite fetch_until_success_unfold. intros H. injection H as _ <-.
  intros u. cbn [pending]. unfold set_pending.
  destruct (str_eqb u (target_of url)) eqn:E.
  - apply str_eqb_true in E. subst u.
    destruct (fetch_loop validator_func 0 (pending w (target_of url)))
      as [[o' n] rest] eqn:Hl.
    destruct (fetch_loop_consumed _ _ _ _ _ _ Hl) as (used & Hused & _).
    exists used. exact Hused.
  - exists []. reflexivity.
Qed.

Lemma fetch_served url validator_func w soup w1 :
  fetch_until_success url validator_func w = (Done (Some soup), w1) ->
  served w (target_of url) soup.
Proof.
  rewrite fetch_until_success_unfold. intros H. injection H as Ho _.
  destruct (fetch_loop validator_func 0 (pending w (target_of url)))
    as [[o n] rest] eqn:Hl.
  cbn [fst] in Ho. subst o.
  destruct (fetch_loop_done _ _ _ _ _ _ Hl) as (pre & ev & Hq & _ & Hev).
  destruct (attempt_return_document _ _ _ Hev) as (r & -> & _ & Hp & _).
  exists r. split; [|exact Hp].
  rewrite Hq. apply in_or_app. right. left. reflexivity.
Qed.

Lemma served_suffix w w1 url soup :
  (forall u, exists used, pending w u = used ++ pending w1 u) ->
  served w1 url soup -> served w url soup.
Proof.
  intros Hsuf (r & Hin & Hp). destruct (Hsuf url) as [used Hu].
  exists r. split; [|exact Hp]. rewrite Hu. apply in_or_app. right. exact Hin.
Qed.

Lemma fetch_loop_done_count validator_func evs n soup n' rest :
  fetch_loop validator_func n evs = (Done soup, n', rest) -> (n < n')%nat.
Proof.
  intros H.
  destruct (fetch_loop_done _ _ _ _ _ _ H) as (pre & ev & -> & Hpre & Hev).
  rewrite (fetch_loop_decisive _ _ _ _ _ _ Hpre Hev) in H.
  injection H as E. lia.
Qed.

Section Endpoint.

Variable int_of : str -> res Z.

(** What a run of the endpoint that answers went through. *)
Lemma search_apps_done query limit w p w' :
search_apps int_of query limit w = (Done p, w') ->
exists collected w1,
  pagination int_of (Z.to_nat limit) query limit [] 1 1 w
  = (Done collected, w1)
  /\ (collected = [] /\ p = empty_payload /\ w' = w1
      \/ collected <> []
         /\ exists tasks results,
              make_tasks (slice_to collected limit) = Ok tasks
              /\ gather tasks w1 = (Done results, w')
              /\ p = [("success", VBool true); ("query", VStr query);
                      ("limit", VInt limit);
                      ("count", VInt (len (valid_only results)));
                      ("results", VItems (valid_only results))]).
Proof.
intros H. unfold search_apps in H.
apply bind_done in H. destruct H as (collected & w1 & Hp & H).
exists collected, w1. split; [exact Hp|].
destruct collected as [|item collected].
- left. apply ret_done in H. destruct H as [-> ->]. repeat split.
- right. split; [discriminate|]. cbn [truthy negb] in H.
  apply bind_done in H. destruct H as (tasks & w2 & Ht & H).
  apply lift_done in Ht. destruct Ht as [Ht ->].
  apply bind_done in H. destruct H as (results & w3 & Hg & H).
  apply ret_done in H. destruct H as [-> ->].
  exists tasks, results. repeat split; assumption.
Qed.

Lemma pagination_overshoot fuel query limit :
forall collected current_page max_page w out w',
  pagination int_of fuel query limit collected current_page max_page w
  = (Done out, w') ->
  out = collected
  \/ exists more last page soup,
       out = (collected ++ more) ++ last
       /\ (len (collected ++ more) < limit)%Z /\ last <> []
       /\ (current_page <= page)%Z
       /\ served w (search_url_of query page) soup
       /\ select soup ".catalog-item" = Ok last.
Proof.
induction fuel as [|fuel IH];
  intros collected current_page max_page w out w' H;
  rewrite pagination_eq in H;
  destruct (len collected <? limit)%Z eqn:Hlt; cbn [negb] in H;
  try (apply ret_done in H; destruct H as [-> _]; left; reflexivity);
  [discriminate H|].
apply Z.ltb_lt in Hlt.
apply bind_done in H. destruct H as ([soup|] & w1 & Hf & H);
  [|apply ret_done in H; destruct H as [-> _]; left; reflexivity].
pose proof (fetch_served _ _ _ _ _ Hf) as Hserved.
rewrite target_of_search_url in Hserved.
pose proof (fetch_pending_suffix _ _ _ _ _ Hf) as Hsuffix.
apply bind_done in H. destruct H as (text & w2 & Ht & H).
apply lift_done in Ht. destruct Ht as [_ ->].
destruct (str_in found_0 text);
  [apply ret_done in H; destruct H as [-> _]; left; reflexivity|].
apply bind_done in H. destruct H as (page_items & w3 & Hsel & H).
apply lift_done in Hsel. destruct Hsel as [Hsel ->].
destruct (truthy page_items) eqn:Htr; cbn [negb] in H;
  [|apply ret_done in H; destruct H as [-> _]; left; reflexivity].
assert (Hne : page_items <> []).
{ intros E. rewrite E in Htr. discriminate Htr. }
assert (Hhere : exists more last page soup0,
           collected ++ page_items = (collected ++ more) ++ last
           /\ (len (collected ++ more) < limit)%Z /\ last <> []
           /\ (current_page <= page)%Z
           /\ served w (search_url_of query page) soup0
           /\ select soup0 ".catalog-item" = Ok last).
{ exists [], page_items, current_page, soup. rewrite app_nil_r.
  repeat split; try assumption. lia. }
apply bind_done in H. destruct H as (m & w4 & Hm & H).
apply lift_done in Hm. destruct Hm as [_ ->].
destruct (current_page >=? m)%Z.
- apply ret_done in H. destruct H as [-> _]. right. exact Hhere.
- apply IH in H.
  destruct H as [-> | (more & last & page & soup0 & -> & Hlen & Hlast
                       & Hpage & Hs & Hl)].
  + right. exact Hhere.
  + right. exists (page_items ++ more), last, page, soup0.
    rewrite app_assoc. repeat split; try assumption; [lia|].
    exact (served_suffix _ _ _ _ Hsuffix Hs).
Qed.

Lemma pagination_requests fuel query limit :
forall collected current_page max_page w,
exists counts,
  Forall (fun n => 0 < n)%nat counts
  /\ requests (snd (pagination int_of fuel query limit collected
                      current_page max_page w))
     = requests w ++ page_requests query current_page counts.
Proof.
induction fuel as [|fuel IH]; intros collected current_page max_page w;
  rewrite pagination_eq;
  destruct (len collected <? limit)%Z; cbn [negb];
  try (exists []; split; [constructor | cbn; rewrite app_nil_r; reflexivity]).
unfold bind.
rewrite fetch_until_success_unfold, target_of_search_url.
destruct (fetch_loop search_page_valid 0
            (pending w (search_url_of query current_page)))
  as [[o n] rest] eqn:Hl.
cbn [fst snd].
set (w1 := {| pending := set_pending (pending w)
                           (search_url_of query current_page) rest;
              requests := requests w
                          ++ repeat (search_url_of query current_page) n |}).
assert (Hstop : exists counts,
           Forall (fun n => 0 < n)%nat counts
           /\ requests w1
              = requests w ++ page_requests query current_page counts).
{ destruct n as [|n].
  - exists []. split; [constructor|]. reflexivity.
  - exists [S n]. split; [constructor; [lia | constructor]|].
    subst w1. cbn [requests page_requests]. rewrite app_nil_r.
    reflexivity. }
destruct o as [[soup|] | e |]; cbn [snd]; try exact Hstop.
unfold lift, ret.
destruct (get_text soup) as [text | e]; cbn [snd]; try exact Hstop.
destruct (str_in found_0 text); cbn [snd]; try exact Hstop.
destruct (select soup ".catalog-item") as [page_items | e]; cbn [snd];
  try exact Hstop.
destruct (truthy page_items); cbn [negb snd]; try exact Hstop.
destruct (next_max_page int_of soup max_page) as [m | e]; cbn [snd];
  try exact Hstop.
destruct (current_page >=? m)%Z; cbn [snd]; try exact Hstop.
destruct (IH (collected ++ page_items) (current_page + 1)%Z m w1)
  as (counts & Hpos & Hc).
exists (n :: counts). split.
- constructor; [|exact Hpos].
  pose proof (fetch_loop_done_count _ _ _ _ _ _ Hl). lia.
- rewrite Hc. subst w1. cbn [requests page_requests].
  rewrite <- app_assoc. reflexivity.
Qed.

End Endpoint.

(** X16: with a limit of zero or less the endpoint answers at once, without
    any request, with the dictionary of an empty search. *)
Theorem search_apps_nonpositive_limit
  (int_of : str -> res Z) (query : str) (limit : Z) (w : World) :
  (limit <= 0)%Z ->
  search_apps int_of query limit w = (Done empty_payload, w).
Proof.
  intros H. unfold search_apps.
  rewrite (bind_step _ _ _ _ _
             (pagination_enough int_of (Z.to_nat limit) query limit [] 1 1 w H)).
  reflexivity.
Qed.

(** X16 on a limit of zero. *)
Lemma search_apps_nonpositive_limit_witness :
  search_apps Sample.int_digits (lit "quake") 0 Sample.search_world
  = (Done empty_payload, Sample.search_world).
Proof.
  apply search_apps_nonpositive_limit. discriminate.
Defined.

(** X17: whenever the endpoint answers, [success] is true, and [count] is
    the number of records in [results]. *)
Theorem search_apps_count_matches
  (int_of : str -> res Z) (query : str) (limit : Z) (w : World)
  (p : payload) (w' : World) :
  search_apps int_of query limit w = (Done p, w') ->
  assoc_get p "success" = Some (VBool true)
  /\ exists items,
       assoc_get p "results" = Some (VItems items)
       /\ assoc_get p "count" = Some (VInt (len items)).
Proof.
  intros H.
  destruct (search_apps_done _ _ _ _ _ _ H)
    as (collected & w1 & _ & [(_ & -> & _) | (_ & tasks & results & _ & _ & ->)]).
  - split; [reflexivity|]. exists []. split; reflexivity.
  - split; [reflexivity|]. exists (valid_only results). split; reflexivity.
Qed.

(** X17 on the sample search for "quake". *)
Lemma search_apps_count_matches_witness :
  assoc_get
    (match fst (search_apps Sample.int_digits (lit "quake") 5
                  Sample.search_world) with
     | Done p => p
     | _ => []
     end) "success" = Some (VBool true)
  /\ exists items,
       assoc_get
         (match fst (search_apps Sample.int_digits (lit "quake") 5
                       Sample.search_world) with
          | Done p => p
          | _ => []
          end) "results" = Some (VItems items)
       /\ assoc_get
            (match fst (search_apps Sample.int_digits (lit "quake") 5
                          Sample.search_world) with
             | Done p => p
             | _ => []
             end) "count" = Some (VInt (len items)).
Proof.
  apply (search_apps_count_matches Sample.int_digits (lit "quake") 5
           Sample.search_world _
           (snd (search_apps Sample.int_digits (lit "quake") 5
                   Sample.search_world))).
  run_sample.
Defined.

(** X18: when the pagination loop collected at least one entry, the answer
    gives back the query and the limit of the request, even if no entry
    resolves. *)
Theorem search_apps_echoes_request
  (int_of : str -> res Z) (query : str) (limit : Z) (w : World)
  (p : payload) (w' : World) (collected : list Tag) (w1 : World) :
  search_apps int_of query limit w = (Done p, w') ->
  pagination int_of (Z.to_nat limit) query limit [] 1 1 w
  = (Done collected, w1) ->
  collected <> [] ->
  assoc_get p "query" = Some (VStr query)
  /\ assoc_get p "limit" = Some (VInt limit).
Proof.
  intros H Hp Hne.
  destruct (search_apps_done _ _ _ _ _ _ H)
    as (collected' & w1' & Hp' & Hcase).
  rewrite Hp in Hp'. injection Hp' as <- <-.
  destruct Hcase as [(E & _) | (_ & tasks & results & _ & _ & ->)];
    [contradiction (Hne E)|].
  split; reflexivity.
Qed.

(** X18 on a search whose only entry does not resolve. *)
Lemma search_apps_echoes_request_witness :
  assoc_get
    [("success", VBool true); ("query", VStr (lit "lost"));
     ("limit", VInt 3); ("count", VInt 0); ("results", VItems [])]
    "query" = Some (VStr (lit "lost"))
  /\ assoc_get
       [("success", VBool true); ("query", VStr (lit "lost"));
        ("limit", VInt 3); ("count", VInt 0); ("results", VItems [])]
       "limit" = Some (VInt 3).
Proof.
  apply (search_apps_echoes_request Sample.int_digits (lit "lost") 3
           (Sample.world
              [("https://pdalife.com/search/lost",
                [Sample.answer 200 "https://pdalife.com/search/lost"
                   (Sample.results_page [Sample.entry "/game/a" "A"] None)]);
               ("https://pdalife.com/game/a", Sample.gone)])
           _
           (snd (search_apps Sample.int_digits (lit "lost") 3
                   (Sample.world
                      [("https://pdalife.com/search/lost",
                        [Sample.answer 200 "https://pdalife.com/search/lost"
                           (Sample.results_page
                              [Sample.entry "/game/a" "A"] None)]);
                       ("https://pdalife.com/game/a", Sample.gone)])))
           [Sample.entry "/game/a" "A"]
           (snd (pagination Sample.int_digits (Z.to_nat 3) (lit "lost") 3
                   [] 1 1
                   (Sample.world
                      [("https://pdalife.com/search/lost",
                        [Sample.answer 200 "https://pdalife.com/search/lost"
                           (Sample.results_page
                              [Sample.entry "/game/a" "A"] None)]);
                       ("https://pdalife.com/game/a", Sample.gone)])))).
  - run_sample.
  - run_sample.
  - discriminate.
Defined.

(** X19: a catalog entry whose title link has no [href] makes the endpoint
    raise [KeyError] while it builds the tasks: no item pipeline has
    started, so the network is as the pagination loop left it, and the
    entries before it are lost with it. *)
Theorem search_apps_title_without_href
  (int_of : str -> res Z) (query : str) (limit : Z) (w : World)
  (collected : list Tag) (w1 : World) (pre : list Tag) (item : Tag)
  (post : list Tag) (tasks : list task) (title_el : Tag) (title : str) :
  pagination int_of (Z.to_nat limit) query limit [] 1 1 w
  = (Done collected, w1) ->
  slice_to collected limit = pre ++ item :: post ->
  make_tasks pre = Ok tasks ->
  select_one item ".catalog-item__title a" = Ok (Some title_el) ->
  get_text_strip title_el = Ok title ->
  attr_get title_el "href" = None ->
  search_apps int_of query limit w = (Raised KeyError, w1).
Proof.
  intros Hp Hs Hpre Hsel Htext Hattr.
  assert (Hitem : task_of item = Raise KeyError).
  { unfold task_of, attr_index. rewrite Hsel. cbn [res_bind].
    rewrite Htext. cbn [res_bind]. rewrite Hattr. reflexivity. }
  unfold search_apps. rewrite (bind_step _ _ _ _ _ Hp).
  destruct collected as [|c collected].
  - unfold slice_to in Hs. destruct (limit <? 0)%Z;
      rewrite List.firstn_nil in Hs; destruct pre; discriminate Hs.
  - cbn [truthy negb]. rewrite Hs.
    rewrite (make_tasks_raise _ _ _ _ _ Hpre Hitem). reflexivity.
Qed.

(** X19 on the sample page whose second entry has no link. *)
Lemma search_apps_title_without_href_witness :
  search_apps Sample.int_digits (lit "bad") 5 Sample.unlinked_world
  = (Raised KeyError,
     snd (pagination Sample.int_digits (Z.to_nat 5) (lit "bad") 5 [] 1 1
            Sample.unlinked_world))
  /\ requests
       (snd (pagination Sample.int_digits (Z.to_nat 5) (lit "bad") 5 [] 1 1
               Sample.unlinked_world))
     = [lit "https://pdalife.com/search/bad"].
Proof.
  split; [|vm_compute; reflexivity].
  apply (search_apps_title_without_href Sample.int_digits (lit "bad") 5
           Sample.unlinked_world
           [Sample.entry "/game/b" "B";
            Sample.element [] ""
              [(".catalog-item__title a", [Sample.element [] "No link" []])]]
           _
           [Sample.entry "/game/b" "B"]
           (Sample.element [] ""
              [(".catalog-item__title a", [Sample.element [] "No link" []])])
           []
           [(lit "B", lit "https://pdalife.com/game/b", [])]
           (Sample.element [] "No link" [])
           (lit "No link")).
  - run_sample.
  - reflexivity.
  - reflexivity.
  - reflexivity.
  - reflexivity.
  - reflexivity.
Defined.

(** X20: the entries the pagination loop collects go past the limit by
    less than one page of results: either nothing was collected, or the
    entries collected split into fewer than [limit] entries followed by all
    the catalog entries of one document that the network serves at a search
    page of the query. *)
Theorem pagination_overshoots_by_one_page
  (int_of : str -> res Z) (query : str) (limit : Z) (w : World)
  (collected : list Tag) (w' : World) :
  pagination int_of (Z.to_nat limit) query limit [] 1 1 w
  = (Done collected, w') ->
  collected = []
  \/ exists before last page soup,
       collected = before ++ last
       /\ (len before < limit)%Z /\ last <> []
       /\ (1 <= page)%Z
       /\ served w (search_url_of query page) soup
       /\ select soup ".catalog-item" = Ok last.
Proof.
  intros H.
  destruct (pagination_overshoot _ _ _ _ _ _ _ _ _ _ H)
    as [-> | (more & last & page & soup & -> & Hlen & Hlast & Hp & Hs & Hl)];
    [left; reflexivity|].
  right. exists more, last, page, soup. repeat split; assumption.
Qed.

(** X20 on the sample search for "quake": six entries for a limit of five,
    four of them before the two of the last page asked for. *)
Lemma pagination_overshoots_by_one_page_witness :
  [Sample.entry "/game/a" "A"; Sample.entry "/game/b" "B";
   Sample.entry "/game/c" "C"; Sample.entry "/game/d" "D";
   Sample.entry "/game/e" "E"; Sample.entry "/game/f" "F"] = []
  \/ exists before last page soup,
       [Sample.entry "/game/a" "A"; Sample.entry "/game/b" "B";
        Sample.entry "/game/c" "C"; Sample.entry "/game/d" "D";
        Sample.entry "/game/e" "E"; Sample.entry "/game/f" "F"]
       = before ++ last
       /\ (len before < 5)%Z /\ last <> []
       /\ (1 <= page)%Z
       /\ served Sample.search_world (search_url_of (lit "quake") page) soup
       /\ select soup ".catalog-item" = Ok last.
Proof.
  apply (pagination_overshoots_by_one_page Sample.int_digits (lit "quake") 5
           Sample.search_world _
           (snd (pagination Sample.int_digits (Z.to_nat 5) (lit "quake") 5
                   [] 1 1 Sample.search_world))).
  run_sample.
Defined.

(** X21: the pagination loop asks for the search pages in their order,
    starting with page 1 and skipping none: its requests are one or more
    for page 1, then one or more for page 2, and so on up to the last page
    it asked for. *)
Theorem pagination_requests_in_page_order
  (int_of : str -> res Z) (query : str) (limit : Z) (w : World) :
  exists counts,
    Forall (fun n => 0 < n)%nat counts
    /\ requests (snd (pagination int_of (Z.to_nat limit) query limit [] 1 1 w))
       = requests w ++ page_requests query 1 counts.
Proof. apply pagination_requests. Qed.

(** X21 on the sample search for "quake". *)
Lemma pagination_requests_in_page_order_witness :
  exists counts,
    Forall (fun n => 0 < n)%nat counts
    /\ requests (snd (pagination Sample.int_digits (Z.to_nat 5) (lit "quake") 5
                        [] 1 1 Sample.search_world))
       = requests Sample.search_world ++ page_requests (lit "quake") 1 counts.
Proof.
  exact (pagination_requests_in_page_order Sample.int_digits (lit "quake") 5
           Sample.search_world).
Defined.

(** ** Plain addresses, untitled entries and pages that are gone *)

Lemma replace_from_absent (old new s : str) :
  str_in old s = false -> replace_from old new 0 s = s.
Proof.
  induction s as [|c s IH]; intros H; [reflexivity|].
  cbn [str_in] in H. apply orb_false_iff in H. destruct H as [H1 H2].
  cbn [replace_from]. rewrite H1. f_equal. apply IH, H2.
Qed.

Lemma replace_absent (s old new : str) :
  old <> [] -> str_in old s = false -> replace s old new = s.
Proof.
  intros Hne H. unfold replace.
  destruct old; [contradiction Hne; reflexivity|].
  apply replace_from_absent, H.
Qed.

Lemma split_head_absent (s sep : str) :
  str_in sep s = false -> split_head s sep = s.
Proof.
  induction s as [|c s IH]; intros H; [reflexivity|].
  cbn [str_in] in H. apply orb_false_iff in H. destruct H as [H1 H2].
  cbn [split_head]. rewrite H1. f_equal. apply IH, H2.
Qed.

Lemma clean_url_plain (x : str) : plain x = true -> clean_url x = x.
Proof.
  unfold plain. intros H.
  repeat (apply andb_true_iff in H; destruct H as [H ?]).
  repeat match goal with
         | E : negb _ = true |- _ => apply negb_true_iff in E
         end.
  unfold clean_url, unquote. rewrite H. cbv iota.
  rewrite (replace_absent x (lit "-com.translate.goog") (lit ".com"));
    [|discriminate | assumption].
  rewrite (replace_absent x (lit ".translate.goog") []);
    [|discriminate | assumption].
  rewrite (split_head_absent x (lit "?_x_tr_")) by assumption.
  apply split_head_absent. assumption.
Qed.

(** X22: on a plain address (no percent sign, no translate host, no
    translate parameter) the normalizer only adds an origin: the CDN origin
    in front of a path that starts with "/fdl/", the catalog origin in
    front of any other root-relative path; an address that is not
    root-relative and holds no second "http" past its first eight
    characters is returned as it is. *)
Theorem unwrap_google_url_plain (x : str) :
  plain x = true ->
  (startswith x (lit "/fdl/") = true ->
   unwrap_google_url x = CDN_DOMAIN ++ x)
  /\ (startswith x (lit "/") = true -> startswith x (lit "/fdl/") = false ->
      unwrap_google_url x = BASE_DOMAIN ++ x)
  /\ (startswith x (lit "/") = false ->
      str_in (lit "https://") x && str_in (lit "http") (skipn 8 x) = false ->
      unwrap_google_url x = x).
Proof.
  intros Hp. pose proof (clean_url_plain x Hp) as Hc.
  destruct x as [|c x]; [repeat split; intros; try reflexivity; discriminate|].
  unfold unwrap_google_url. rewrite Hc. split; [|split].
  - intros Hf.
    assert (Hr : startswith (c :: x) (lit "/") = true).
    { rewrite (startswith_split _ _ Hf). reflexivity. }
    rewrite Hr, Hf. reflexivity.
  - intros Hr Hf. rewrite Hr, Hf. reflexivity.
  - intros Hr Hn. rewrite Hr, Hn. reflexivity.
Qed.

(** X22 on the addresses of a file, of a game page and of a poster. *)
Lemma unwrap_google_url_plain_witness :
  unwrap_google_url (lit "/fdl/abc") = CDN_DOMAIN ++ lit "/fdl/abc"
  /\ unwrap_google_url (lit "/game/xyz") = BASE_DOMAIN ++ lit "/game/xyz"
  /\ unwrap_google_url (lit "https://img.pdalife.com/p.png")
     = lit "https://img.pdalife.com/p.png".
Proof.
  split; [|split].
  - apply (proj1 (unwrap_google_url_plain (lit "/fdl/abc") eq_refl)).
    reflexivity.
  - apply (proj1 (proj2 (unwrap_google_url_plain (lit "/game/xyz") eq_refl)));
      reflexivity.
  - apply (proj2 (proj2 (unwrap_google_url_plain
                           (lit "https://img.pdalife.com/p.png") eq_refl)));
      reflexivity.
Defined.

Lemma make_tasks_untitled items :
  Forall (fun item => select_one item ".catalog-item__title a" = Ok None)
    items ->
  make_tasks items = Ok [].
Proof.
  induction 1 as [|item items Hi _ IH]; [reflexivity|].
  cbn [make_tasks]. unfold task_of. rewrite Hi. cbn [res_bind].
  rewrite IH. reflexivity.
Qed.

(** X24: catalog entries without a title link are skipped without error:
    when none of the entries dispatched has one, the endpoint answers with
    a count of zero and no result, gives back query and limit, and makes
    no request after the pagination loop. *)
Theorem search_apps_untitled_entries
  (int_of : str -> res Z) (query : str) (limit : Z) (w : World)
  (collected : list Tag) (w1 : World) :
  pagination int_of (Z.to_nat limit) query limit [] 1 1 w
  = (Done collected, w1) ->
  collected <> [] ->
  Forall (fun item => select_one item ".catalog-item__title a" = Ok None)
    (slice_to collected limit) ->
  search_apps int_of query limit w
  = (Done [("success", VBool true); ("query", VStr query);
           ("limit", VInt limit); ("count", VInt 0); ("results", VItems [])],
     w1).
Proof.
  intros Hp Hne Hall. unfold search_apps.
  rewrite (bind_step _ _ _ _ _ Hp).
  destruct collected as [|c collected]; [contradiction Hne; reflexivity|].
  cbn [truthy negb]. rewrite (make_tasks_untitled _ Hall). reflexivity.
Qed.

(** X24 on a page of results with one entry that has no title link. *)
Lemma search_apps_untitled_entries_witness :
  fst (search_apps Sample.int_digits (lit "void") 2
         (Sample.world
            [("https://pdalife.com/search/void",
              [Sample.answer 200 "https://pdalife.com/search/void"
                 (Sample.results_page [Sample.empty_page] None)])]))
  = Done [("success", VBool true); ("query", VStr (lit "void"));
          ("limit", VInt 2); ("count", VInt 0); ("results", VItems [])].
Proof.
  rewrite (search_apps_untitled_entries Sample.int_digits (lit "void") 2
             (Sample.world
                [("https://pdalife.com/search/void",
                  [Sample.answer 200 "https://pdalife.com/search/void"
                     (Sample.results_page [Sample.empty_page] None)])])
             [Sample.empty_page]
             (snd (pagination Sample.int_digits (Z.to_nat 2) (lit "void") 2
                     [] 1 1
                     (Sample.world
                        [("https://pdalife.com/search/void",
                          [Sample.answer 200 "https://pdalife.com/search/void"
                             (Sample.results_page [Sample.empty_page]
                                None)])])))).
  - reflexivity.
  - run_sample.
  - discriminate.
  - repeat constructor.
Defined.

(** X25: a detail page that is gone or blocked (404, 403 or 451) ends the
    pipeline of its item with [None] after that single request: no download
    page is asked for. *)
Theorem process_item_fully_detail_gone
  (item_name detail_url item_image : str) (w : World) (r : Response)
  (rest : list Event) :
  pending w (target_of detail_url) = Answers r :: rest ->
  (status_code r = 404 \/ status_code r = 403 \/ status_code r = 451)%Z ->
  fst (process_item_fully item_name detail_url item_image w) = Done None
  /\ requests (snd (process_item_fully item_name detail_url item_image w))
     = requests w ++ [target_of detail_url].
Proof.
  intros Hq Hs.
  unfold process_item_fully, try_except, process_item_body, bind.
  rewrite fetch_until_success_unfold, Hq, fetch_loop_cons,
    (attempt_terminal_status _ _ Hs).
  split; reflexivity.
Qed.

(** X25 on the sample game whose page is gone. *)
Lemma process_item_fully_detail_gone_witness :
  fst (process_item_fully (lit "A") (lit "/game/a") [] Sample.search_world)
  = Done None
  /\ requests
       (snd (process_item_fully (lit "A") (lit "/game/a") []
               Sample.search_world))
     = requests Sample.search_world ++ [target_of (lit "/game/a")].
Proof.
  apply (process_item_fully_detail_gone (lit "A") (lit "/game/a") []
           Sample.search_world
           (mkResponse 404 (lit "https://pdalife.com/game") (Ok Sample.empty_page))
           []).
  - reflexivity.
  - left. reflexivity.
Defined.
